(** * filediff: size report of build outputs between two branches

    A shallow embedding of [src/index.ts] (the current version of the
    action, the second program of that file) and the properties of its
    specification.

    Conventions of the embedding.
    - A JavaScript string is a [string]: a sequence of code units, here the
      code units below 256.  Comparison is code unit by code unit, as the
      default [Array.prototype.sort] and [===] do.
    - A JavaScript number holding a size or a count is a [Z]; the sizes of
      files and their sums are far below 2^53, where the two agree.
    - The object [BranchStats.files], used as a dictionary from path to
      metrics, is a [gmap string FileMetric]; its keys are taken not to be
      names inherited from [Object.prototype].  [Object.entries] lists the
      entries in the order of [map_to_list]; the order in which the files
      were inserted is that in which their promises complete, and no
      property below depends on it.
    - Everything outside the program (file system, subprocesses, zlib, the
      hosting API, pretty-bytes) is a field of a [Host] record or a
      parameter; effects are threaded through a state and error monad that
      records every call.
    - Diagnostics written with [info] are not part of the model. *)

From Stdlib Require Import ZArith Lia Ascii String List.
From stdpp Require Import base gmap strings list sorting pretty.

Local Open Scope Z_scope.

(** ** JavaScript string primitives used by the program *)

Module JS.

Definition LF : string := String "010"%char "".

(** Code units that [String.prototype.trim] removes and that the regular
    expression class [\s] matches, below 256: TAB, LF, VT, FF, CR, SP and
    NBSP. *)
Definition is_space (c : ascii) : bool :=
  match c with
  | "009" | "010" | "011" | "012" | "013" | " " | "160" => true
  | _ => false
  end%char.

Fixpoint trimStart (s : string) : string :=
  match s with
  | String c s' => if is_space c then trimStart s' else s
  | EmptyString => EmptyString
  end.

Definition trimEnd (s : string) : string :=
  String.rev (trimStart (String.rev s)).

(** [s.trim()] *)
Definition trim (s : string) : string := trimEnd (trimStart s).

(** [s.startsWith(p)] *)
Definition startsWith (s p : string) : bool := String.prefix p s.

(** [s.split(sep)] for a non-empty separator string: the pieces between
    the successive occurrences of [sep], found from the left and not
    overlapping.  [skip] counts the code units of a separator still to be
    passed over, [acc] is the current piece, reversed. *)
Fixpoint split_go (sep : string) (skip : nat) (acc : string) (s : string)
  : list string :=
  match s with
  | EmptyString => [String.rev acc]
  | String c s' =>
      match skip with
      | S k => split_go sep k acc s'
      | O =>
          if String.prefix sep s
          then String.rev acc :: split_go sep (String.length sep - 1) "" s'
          else split_go sep 0 (String c acc) s'
      end
  end.

Definition split (sep s : string) : list string := split_go sep 0 "" s.

(** [s.split(/\s+/)]: the pieces between the maximal runs of white space;
    a run at either end leaves an empty piece there. *)
Fixpoint splitSpaces_go (inRun : bool) (acc : string) (s : string)
  : list string :=
  match s with
  | EmptyString => [String.rev acc]
  | String c s' =>
      if is_space c
      then if inRun then splitSpaces_go true acc s'
           else String.rev acc :: splitSpaces_go true "" s'
      else splitSpaces_go false (String c acc) s'
  end.

Definition splitSpaces (s : string) : list string :=
  splitSpaces_go false "" s.

(** [a.join(sep)] *)
Definition join (sep : string) (a : list string) : string :=
  String.concat sep a.

(** [s.lastIndexOf(p)]: the largest index at which [p] occurs in [s],
    and -1 when there is none. *)
Fixpoint lastIndexOf_go (p : string) (i : Z) (found : Z) (s : string) : Z :=
  match s with
  | EmptyString => if String.prefix p s then i else found
  | String _ s' =>
      lastIndexOf_go p (i + 1) (if String.prefix p s then i else found) s'
  end.

Definition lastIndexOf (s p : string) : Z := lastIndexOf_go p 0 (-1) s.

(** [s.slice(from, to)], with the clamping of negative and of too large
    indices that the language prescribes. *)
Definition clampIndex (len i : Z) : Z :=
  if i <? 0 then Z.max (len + i) 0 else Z.min i len.

Definition slice (s : string) (from to : Z) : string :=
  let len := Z.of_nat (String.length s) in
  let a := clampIndex len from in
  let b := clampIndex len to in
  String.substring (Z.to_nat a) (Z.to_nat (Z.max (b - a) 0)) s.

(** [s.slice(from)] *)
Definition sliceFrom (s : string) (from : Z) : string :=
  slice s from (Z.of_nat (String.length s)).

(** [s[i]]: [None] stands for [undefined]. *)
Definition charAt (s : string) (i : nat) : option ascii := String.get i s.

End JS.


(** ** Data model *)

(** The value stored under a path in [BranchStats.files]. *)
Record FileMetric := {
  size : Z;
  gzip : Z;
  brotli : Z;
}.

Record BranchStats := {
  totalSize : Z;
  totalGzip : Z;
  totalBrotli : Z;
  files : gmap string FileMetric;
}.

Definition commentHash : string := "<!-- @alex-page was here -->".

(** [Object.entries(o)] and [Object.keys(o)]. *)
Definition entries (o : gmap string FileMetric) : list (string * FileMetric) :=
  map_to_list o.

Definition keys (o : gmap string FileMetric) : list string :=
  (entries o).*1.

(** [[...new Set(l)]]: the elements of [l] in the order of their first
    occurrence. *)
Definition setAdd (seen : list string) (x : string) : list string :=
  if decide (x ∈ seen) then seen else seen ++ [x].

Definition setOf (l : list string) : list string := foldl setAdd [] l.

(** ** [getFileStats]: the key of a file *)

(** [file.split(`${branch}/`).slice(1)[0]]: the second piece, [None] when
    there is no second piece ([undefined]). *)
Definition filePathOf (file branch : string) : option string :=
  head (drop 1 (JS.split (branch +:+ "/") file)).

(** The property key that [branchStats.files[filePath] = ...] writes: an
    [undefined] key is the string "undefined". *)
Definition propertyKey (k : option string) : string := default "undefined" k.

(** The three assignments that end [getFileStats], given the measured
    sizes of the file. *)
Definition recordFile (file branch : string) (m : FileMetric)
    (branchStats : BranchStats) : BranchStats :=
  let filePath := filePathOf file branch in
  {| totalSize := totalSize branchStats + size m;
     totalGzip := totalGzip branchStats + gzip m;
     totalBrotli := totalBrotli branchStats + brotli m;
     files := <[propertyKey filePath := m]> (files branchStats) |}.

Definition emptyStats : BranchStats :=
  {| totalSize := 0; totalBrotli := 0; totalGzip := 0; files := ∅ |}.

(** ** [getCommonStringStart] *)

(** The [for] loop: [i] is the index, [n] the number of iterations left
    ([first.length - i]). *)
Fixpoint commonScan (first last : string) (n i : nat) : string :=
  match n with
  | O => first
  | S n' =>
      if decide (JS.charAt first i = JS.charAt last i)
      then commonScan first last n' (S i)
      else JS.slice first 0 (Z.of_nat i)
  end.

Definition getCommonStringStart (strings : list string) : string :=
  if (length strings <? 2)%nat then "" else
  let sortedStrings := merge_sort String.le strings in
  let first := default "" (head sortedStrings) in
  let last := default "" (list.last sortedStrings) in
  commonScan first last (String.length first) 0.

(** ** [getStatComment] *)

Record FileTotals := {
  changed : Z;
  removed : Z;
  added : Z;
}.

Definition pluralize (count : Z) (single plural : string) : string :=
  if decide (count = 1) then single else plural.

Definition allFilePaths (targetStats prStats : BranchStats) : list string :=
  setOf (keys (files prStats) ++ keys (files targetStats)).

Definition commonFilePathOf (commonStart : string) : string :=
  JS.slice commonStart 0 (JS.lastIndexOf commonStart "/" + 1).

Definition commonFilePath (targetStats prStats : BranchStats) : string :=
  commonFilePathOf (getCommonStringStart (allFilePaths targetStats prStats)).

Section Render.

(** [prettyBytes(n)] and [prettyBytes(n, {signed: true})] of the
    pretty-bytes package, which is not part of the program. *)
Variable prettyBytes : Z -> bool -> string.

Definition getDiff (a b : Z) : string := prettyBytes (a - b) true.

Definition displayName (commonFilePath filePath : string) : string :=
  JS.sliceFrom filePath (Z.of_nat (String.length commonFilePath)).

Definition addedRow (commonFilePath filePath : string) (m : FileMetric)
  : string :=
  "| <sub>" +:+ displayName commonFilePath filePath +:+ "</sub> | <sub>"
  +:+ prettyBytes (size m) false +:+ " `" +:+ prettyBytes (size m) true
  +:+ "`</sub> | <sub>"
  +:+ prettyBytes (gzip m) false +:+ " `" +:+ prettyBytes (gzip m) true
  +:+ "`</sub> | <sub>"
  +:+ prettyBytes (brotli m) false +:+ " `" +:+ prettyBytes (brotli m) true
  +:+ "`</sub> |".

Definition changedRow (commonFilePath filePath : string)
    (m targetFile : FileMetric) : string :=
  "| <sub>" +:+ displayName commonFilePath filePath +:+ "</sub> | <sub>"
  +:+ prettyBytes (size m) false +:+ " `"
  +:+ getDiff (size m) (size targetFile) +:+ "`</sub> | <sub>"
  +:+ prettyBytes (gzip m) false +:+ " `"
  +:+ getDiff (gzip m) (gzip targetFile) +:+ "`</sub> | <sub>"
  +:+ prettyBytes (brotli m) false +:+ " `"
  +:+ getDiff (brotli m) (brotli targetFile) +:+ "`</sub> |".

Definition removedRow (commonFilePath filePath : string) (m : FileMetric)
  : string :=
  "| <sub>~" +:+ displayName commonFilePath filePath +:+ "~</sub> | <sub>0 B `"
  +:+ prettyBytes (-1 * size m) true +:+ "`</sub> | <sub>0 B `"
  +:+ prettyBytes (-1 * gzip m) true +:+ "`</sub> | <sub>0 B `"
  +:+ prettyBytes (-1 * brotli m) true +:+ "`</sub> |".

(** The state that the two [forEach] loops update. *)
Definition Columns : Type := FileTotals * list string.

(** Body of the loop over [Object.entries(prStats.files)]. *)
Definition prEntry (targetStats : BranchStats) (commonFilePath : string)
    (st : Columns) (entry : string * FileMetric) : Columns :=
  let '(fileTotals, fileColumns) := st in
  let '(filePath, m) := entry in
  match files targetStats !! filePath with
  | None =>
      ({| changed := changed fileTotals;
          removed := removed fileTotals;
          added := added fileTotals + 1 |},
       fileColumns ++ [addedRow commonFilePath filePath m])
  | Some targetFile =>
      if decide (size m ≠ size targetFile)
      then ({| changed := changed fileTotals + 1;
               removed := removed fileTotals;
               added := added fileTotals |},
            fileColumns ++ [changedRow commonFilePath filePath m targetFile])
      else st
  end.

(** Body of the loop over [Object.entries(targetStats.files)]. *)
Definition targetEntry (prStats : BranchStats) (commonFilePath : string)
    (st : Columns) (entry : string * FileMetric) : Columns :=
  let '(fileTotals, fileColumns) := st in
  let '(filePath, m) := entry in
  match files prStats !! filePath with
  | None =>
      ({| changed := changed fileTotals;
          removed := removed fileTotals + 1;
          added := added fileTotals |},
       fileColumns ++ [removedRow commonFilePath filePath m])
  | Some _ => st
  end.

Definition fileColumnsOf (targetStats prStats : BranchStats) : Columns :=
  let commonFilePath := commonFilePath targetStats prStats in
  let st0 := ({| changed := 0; removed := 0; added := 0 |}, []) in
  let st1 :=
    foldl (prEntry targetStats commonFilePath) st0 (entries (files prStats)) in
  foldl (targetEntry prStats commonFilePath) st1 (entries (files targetStats)).

Definition detailsSummaryText (fileTotals : FileTotals) : list string :=
  let t0 := [] in
  let t1 :=
    if decide (changed fileTotals ≠ 0)
    then t0 ++ [pretty (changed fileTotals) +:+ " "
                +:+ pluralize (changed fileTotals) "file changed" "files changed"]
    else t0 in
  let t2 :=
    if decide (added fileTotals ≠ 0)
    then t1 ++ [pretty (added fileTotals) +:+ " "
                +:+ pluralize (added fileTotals) "file added" "files added"]
    else t1 in
  if decide (removed fileTotals ≠ 0)
  then t2 ++ [pretty (removed fileTotals) +:+ " "
              +:+ pluralize (removed fileTotals) "file removed" "files removed"]
  else t2.

(** The opening tag of the collapsible section. *)
Definition detailsTag (fileDetailsOpen : bool) : string :=
  "<details" +:+ (if fileDetailsOpen then " open" else "") +:+ ">".

Definition summaryLine (fileTotals : FileTotals) : string :=
  "<summary><sub>" +:+ JS.join ", " (detailsSummaryText fileTotals)
  +:+ "</sub></summary>".

Definition getStatComment (targetStats prStats : BranchStats)
    (fileDetailsOpen : bool) : string :=
  let totalDiff_size := getDiff (totalSize prStats) (totalSize targetStats) in
  let totalDiff_gzip := getDiff (totalGzip prStats) (totalGzip targetStats) in
  let totalDiff_brotli :=
    getDiff (totalBrotli prStats) (totalBrotli targetStats) in
  let commonFilePath := commonFilePath targetStats prStats in
  let '(fileTotals, fileColumns) := fileColumnsOf targetStats prStats in
  commentHash +:+ JS.LF
  +:+ "<sub>**[[filediff]](https://github.com/shopify/filediff)** The total bytes "
  +:+ (if JS.startsWith totalDiff_size "+" then "added" else "removed")
  +:+ " are:</sub>" +:+ JS.LF
  +:+ "  | uncompressed | gzip | brotli |" +:+ JS.LF
  +:+ "  |:--- |:--- |:--- |" +:+ JS.LF
  +:+ "  | <sub>" +:+ prettyBytes (totalSize prStats) false
  +:+ " `" +:+ totalDiff_size +:+ "`</sub> | <sub>"
  +:+ prettyBytes (totalGzip prStats) false
  +:+ " `" +:+ totalDiff_gzip +:+ "`</sub> | <sub>"
  +:+ prettyBytes (totalBrotli prStats) false
  +:+ " `" +:+ totalDiff_brotli +:+ "`</sub> |" +:+ JS.LF
  +:+ JS.LF
  +:+ JS.LF
  +:+ "  " +:+ detailsTag fileDetailsOpen +:+ JS.LF
  +:+ "    " +:+ summaryLine fileTotals +:+ JS.LF
  +:+ JS.LF
  +:+ (if decide (commonFilePath ≠ "")
       then "<sub>All changed files are in " +:+ commonFilePath +:+ "</sub>"
       else "") +:+ JS.LF
  +:+ JS.LF
  +:+ "| Filename | size  | gzip | brotli |" +:+ JS.LF
  +:+ "|:--- | ---:| ---:| ---:|" +:+ JS.LF
  +:+ JS.join JS.LF fileColumns +:+ JS.LF
  +:+ "  </details>" +:+ JS.LF
  +:+ "  ".

End Render.

(** ** The environment of a run *)

Module Comment.
(** A comment of the pull request, as [issues.listComments] returns it;
    [body] is [None] when the field is absent. *)
Record t := { id : Z; body : option string }.
End Comment.

Record Repository := { owner_login : string; name : string }.
Record PullRequest := { head_ref : string; number : Z }.
Record Payload := {
  repository : option Repository;
  pull_request : option PullRequest;
}.

(** What the run reads from its process: the credential, the event payload
    and the inputs written in the workflow ([with:]). *)
Record Context := {
  GITHUB_TOKEN : option string;
  payload : Payload;
  workflowInputs : gmap string string;
}.

(** Modelled from the spec: [action.yml], the metadata file of the action
    that declares the inputs and their defaults, is not among the sources.
    Section 6 of the specification gives the defaults: [file_details_open]
    false, [replace_comment] true; the other inputs have none. *)
Definition actionDefaults : gmap string string :=
  {[ "file_details_open" := "false"; "replace_comment" := "true" ]}.

(** The value the runner hands to the action for an input: the one of the
    workflow, else the default of the action. *)
Definition inputEnv (ctx : Context) (name : string) : option string :=
  (workflowInputs ctx ∪ actionDefaults) !! name.

(** Every call that leaves the program, in the order it is made. *)
Inductive Call :=
| GetInput (name : string)
| Cp (src dst : string)
| Exec (cmd : string) (args : list string) (cwd : string)
| Globby (patterns : list string) (cwd : string)
| Stat (file : string)
| ReadFile (file : string)
| ListComments (owner repo : string) (issue_number : Z)
| DeleteComment (owner repo : string) (comment_id : Z)
| CreateComment (owner repo : string) (issue_number : Z) (body : string)
| SetFailed (msg : string).

Inductive result (A : Type) : Type :=
| Ok (a : A)
| Throw (msg : string).
Arguments Ok {A} a.
Arguments Throw {A} msg.

(** The collaborators of the program.  [FS] is the state of the file system
    and of the remote repository; a [Throw] is a rejected promise. *)
Record Host (FS : Type) := {
  h_cp : FS -> string -> string -> result FS;
  h_exec : FS -> string -> list string -> string -> result FS;
  h_globby : FS -> list string -> string -> result (list string);
  h_stat : FS -> string -> result Z;
  h_readFile : FS -> string -> result (list Byte.byte);
  h_gzip : list Byte.byte -> list Byte.byte;
  h_brotliCompress : list Byte.byte -> list Byte.byte;
  (** the error with which the hosting API rejects a call, given the calls
      made before it *)
  h_apiError : list Call -> Call -> option string;
  (** the identifier the hosting API gives to a new comment *)
  h_newCommentId : list Comment.t -> Z;
  h_prettyBytes : Z -> bool -> string;
}.
Arguments h_cp {FS}.
Arguments h_exec {FS}.
Arguments h_globby {FS}.
Arguments h_stat {FS}.
Arguments h_readFile {FS}.
Arguments h_gzip {FS}.
Arguments h_brotliCompress {FS}.
Arguments h_apiError {FS}.
Arguments h_newCommentId {FS}.
Arguments h_prettyBytes {FS}.

Record World (FS : Type) := {
  fs : FS;
  comments : list Comment.t;
  calls : list Call;
}.
Arguments fs {FS}.
Arguments comments {FS}.
Arguments calls {FS}.

(** ** A state and error monad for the asynchronous code *)

Definition M (FS A : Type) : Type := World FS -> result A * World FS.

Definition ret {FS A} (a : A) : M FS A := fun w => (Ok a, w).

Definition throw {FS A} (msg : string) : M FS A := fun w => (Throw msg, w).

Definition bind {FS A B} (m : M FS A) (k : A -> M FS B) : M FS B :=
  fun w =>
    match m w with
    | (Ok a, w') => k a w'
    | (Throw msg, w') => (Throw msg, w')
    end.

Notation "'let*' x := m 'in' k" := (bind m (fun x => k))
  (at level 10, x pattern, m at level 100, k at level 200).
Notation "m ;; k" := (bind m (fun _ => k))
  (at level 100, k at level 200, right associativity).

Definition logCall {FS} (c : Call) (w : World FS) : World FS :=
  {| fs := fs w; comments := comments w; calls := calls w ++ [c] |}.

Definition setFs {FS} (f : FS) (w : World FS) : World FS :=
  {| fs := f; comments := comments w; calls := calls w |}.

Definition setComments {FS} (cs : list Comment.t) (w : World FS) : World FS :=
  {| fs := fs w; comments := cs; calls := calls w |}.

(** A string is truthy when it is defined and not empty. *)
Definition truthy (s : option string) : bool :=
  match s with
  | Some (String _ _) => true
  | _ => false
  end.

Section Program.

Context {FS : Type} (host : Host FS).

(** *** The calls *)

(** [fs.promises.cp(src, dst, {recursive: true})] *)
Definition cp (src dst : string) : M FS unit := fun w =>
  let w := logCall (Cp src dst) w in
  match h_cp host (fs w) src dst with
  | Ok f => (Ok tt, setFs f w)
  | Throw msg => (Throw msg, w)
  end.

(** [exec(cmd, args, {cwd})]: rejected when the command cannot be run or
    exits with a code other than zero. *)
Definition exec (cmd : string) (args : list string) (cwd : string)
  : M FS unit := fun w =>
  let w := logCall (Exec cmd args cwd) w in
  match h_exec host (fs w) cmd args cwd with
  | Ok f => (Ok tt, setFs f w)
  | Throw msg => (Throw msg, w)
  end.

(** [globby(patterns, {cwd, absolute: true})] *)
Definition globby (patterns : list string) (cwd : string)
  : M FS (list string) := fun w =>
  let w := logCall (Globby patterns cwd) w in
  (h_globby host (fs w) patterns cwd, w).

Definition stat (file : string) : M FS Z := fun w =>
  let w := logCall (Stat file) w in
  (h_stat host (fs w) file, w).

Definition readFile (file : string) : M FS (list Byte.byte) := fun w =>
  let w := logCall (ReadFile file) w in
  (h_readFile host (fs w) file, w).

(** A call of the hosting API: logged, then rejected or performed. *)
Definition api {A} (c : Call) (perform : World FS -> A * World FS)
  : M FS A := fun w =>
  match h_apiError host (calls w) c with
  | Some msg => (Throw msg, logCall c w)
  | None => let '(a, w') := perform (logCall c w) in (Ok a, w')
  end.

Definition listComments (owner repo : string) (issue_number : Z)
  : M FS (list Comment.t) :=
  api (ListComments owner repo issue_number) (fun w => (comments w, w)).

Definition deleteComment (owner repo : string) (comment_id : Z)
  : M FS unit :=
  api (DeleteComment owner repo comment_id)
    (fun w =>
       (tt, setComments
              (filter (fun c => Comment.id c ≠ comment_id) (comments w)) w)).

Definition createComment (owner repo : string) (issue_number : Z)
    (body : string) : M FS unit :=
  api (CreateComment owner repo issue_number body)
    (fun w =>
       (tt, setComments
              (comments w ++
                 [{| Comment.id := h_newCommentId host (comments w);
                     Comment.body := Some body |}]) w)).

(** [getInput(name, {required})] of the actions toolkit: the value of the
    input or the empty string, trimmed; an error when a required input is
    empty. *)
Definition getInput (ctx : Context) (name : string) (required : bool)
  : M FS string := fun w =>
  let w := logCall (GetInput name) w in
  let val := default "" (inputEnv ctx name) in
  if required && negb (truthy (Some val))
  then (Throw ("Input required and not supplied: " +:+ name), w)
  else (Ok (JS.trim val), w).

(** *** [getFileStats] *)

Definition getFileStats (file branch : string) (branchStats : BranchStats)
  : M FS BranchStats :=
  let* stats_size := stat file in
  let* fileContents := readFile file in
  let gzipFile := h_gzip host fileContents in
  let gzipSize := Z.of_nat (length gzipFile) in
  let brotliFile := h_brotliCompress host fileContents in
  let brotliSize := Z.of_nat (length brotliFile) in
  ret (recordFile file branch
         {| size := stats_size; gzip := gzipSize; brotli := brotliSize |}
         branchStats).

(** *** [getBranchStats] *)

(** One pre-diff command: [cmd.split(/\s+/)] gives the name and the
    arguments. *)
Definition commandOf (cmd : string) : string * list string :=
  let parts := JS.splitSpaces cmd in
  (default "" (head parts), tail parts).

(** [script.split('&&').map((cmd) => cmd.trim())] *)
Definition commandsOf (script : string) : list string :=
  map JS.trim (JS.split "&&" script).

(** The [for ... of] loop over the commands. *)
Fixpoint runCommands (commands : list string) (cwd : string) : M FS unit :=
  match commands with
  | [] => ret tt
  | cmd :: rest =>
      let '(cmdName, cmdArgs) := commandOf cmd in
      exec cmdName cmdArgs cwd ;;
      runCommands rest cwd
  end.

(** [Promise.all(files.map((file) => getFileStats(file, branch,
    branchStats)))]: the files update the one [branchStats] in the order
    in which they complete, here the order of the list. *)
Fixpoint collect (files : list string) (branch : string)
    (branchStats : BranchStats) : M FS BranchStats :=
  match files with
  | [] => ret branchStats
  | file :: rest =>
      let* branchStats := getFileStats file branch branchStats in
      collect rest branch branchStats
  end.

(** The block [if (script) { ... }]; an absent script is [None]. *)
Definition runScript (script : option string) (cwd : string) : M FS unit :=
  if truthy script
  then runCommands (commandsOf (default "" script)) cwd
  else ret tt.

Definition getBranchStats (branch dirGlob : string) (script : option string)
  : M FS BranchStats :=
  let tempDir := ".filediff" in
  let cwd := "../" +:+ tempDir +:+ "/" +:+ branch in
  cp "." cwd ;;
  exec "git" ["fetch"; "origin"; branch] cwd ;;
  exec "git" ["checkout"; branch] cwd ;;
  runScript script cwd ;;
  let* files := globby (JS.split "," dirGlob) cwd in
  collect files branch emptyStats.

(** *** [run] *)

(** The loop over [allFilePaths] that sorts the paths into the three
    lists of [fileChanges]. *)
Definition classifyPath (targetStats prStats : BranchStats)
    (fileChanges : list string * list string * list string)
    (filePath : string) : list string * list string * list string :=
  let '(added, removed, modified) := fileChanges in
  let prFile := files prStats !! filePath in
  let targetFile := files targetStats !! filePath in
  match targetFile with
  | None => (added ++ [filePath], removed, modified)
  | Some targetFile =>
      match prFile with
      | None => (added, removed ++ [filePath], modified)
      | Some prFile =>
          if decide (size prFile ≠ size targetFile)
          then (added, removed, modified ++ [filePath])
          else fileChanges
      end
  end.

Definition fileChangesOf (targetStats prStats : BranchStats)
  : list string * list string * list string :=
  foldl (classifyPath targetStats prStats) ([], [], [])
    (allFilePaths targetStats prStats).

(** The loop over [comments.data]; the result is [deletedCount]. *)
Fixpoint deleteExisting (owner repo : string) (data : list Comment.t)
    (deletedCount : Z) : M FS Z :=
  match data with
  | [] => ret deletedCount
  | comment :: rest =>
      match Comment.body comment with
      | Some body =>
          if JS.startsWith body commentHash
          then deleteComment owner repo (Comment.id comment) ;;
               deleteExisting owner repo rest (deletedCount + 1)
          else deleteExisting owner repo rest deletedCount
      | None => deleteExisting owner repo rest deletedCount
      end
  end.

(** The body of the [try] block. *)
Definition runTry (ctx : Context) : M FS unit :=
  if negb (truthy (GITHUB_TOKEN ctx))
  then throw "Missing required environment variables: GITHUB_TOKEN"
  else
    match repository (payload ctx), pull_request (payload ctx) with
    | Some repository, Some pull_request =>
        let prBranch := head_ref pull_request in
        let prNumber := number pull_request in
        let owner := owner_login repository in
        let repo := name repository in
        let* targetBranch := getInput ctx "target_branch" true in
        let* dirGlob := getInput ctx "dir_glob" true in
        let* script := getInput ctx "pre_diff_script" false in
        let* fileDetailsOpen := getInput ctx "file_details_open" false in
        let* replaceComment := getInput ctx "replace_comment" false in
        (* Promise.all starts the two aggregations together; they share
           nothing, and the model runs the target branch first *)
        let* targetStats :=
          getBranchStats targetBranch dirGlob (Some script) in
        let* prStats :=
          getBranchStats prBranch dirGlob (Some script) in
        if decide (totalSize targetStats = totalSize prStats)
        then ret tt
        else
          (if decide (replaceComment = "true")
           then
             let* data := listComments owner repo prNumber in
             let* deletedCount := deleteExisting owner repo data 0 in
             ret tt
           else ret tt) ;;
          let commentBody :=
            getStatComment (h_prettyBytes host) targetStats prStats
              (bool_decide (fileDetailsOpen = "true")) in
          createComment owner repo prNumber commentBody
    | _, _ => ret tt
    end.

(** [run]: the [try] block, and [setFailed] with the message of whatever
    it throws. *)
Definition run (ctx : Context) (w : World FS) : World FS :=
  match runTry ctx w with
  | (Ok _, w') => w'
  | (Throw msg, w') => logCall (SetFailed msg) w'
  end.

End Program.

(** * The vocabulary of the specification *)

(** ** Prefixes *)

Definition prefixOf (p s : string) : Prop := ∃ t, s = p +:+ t.

(** The longest common prefix of two strings. *)
Fixpoint commonPrefix (a b : string) : string :=
  match a, b with
  | String x a', String y b' =>
      if decide (x = y) then String x (commonPrefix a' b') else ""
  | _, _ => ""
  end.

(** Empty, or ending with the separator of path segments. *)
Definition directoryAligned (d : string) : Prop :=
  d = "" ∨ ∃ d', d = d' +:+ "/".

Fixpoint occurs (c : ascii) (s : string) : Prop :=
  match s with
  | EmptyString => False
  | String x s' => x = c ∨ occurs c s'
  end.

(** [sep] occurs in [s]. *)
Definition occursIn (sep s : string) : Prop := ∃ a b, s = a +:+ sep +:+ b.

(** Strings without white space, and strings of white space only. *)
Definition noSpace (t : string) : Prop :=
  ∀ c, occurs c t → JS.is_space c = false.

Definition allSpace (t : string) : Prop :=
  ∀ c, occurs c t → JS.is_space c = true.

(** ** The classification of section 3 *)

Inductive FileChange :=
| Added (m : FileMetric)
| Removed (targetFile : FileMetric)
| Modified (m targetFile : FileMetric)
| Unchanged.





(** The number of entries of a report whose change satisfies [f]. *)
Definition countOf (f : FileChange → bool) (l : list (string * FileChange))
  : Z :=
  Z.of_nat (length (filter (λ pc, f pc.2 = true) l)).







(** The three tests of the loop of [run], on one path. *)
Definition testAdded (targetStats : BranchStats) (path : string) : Prop :=
  files targetStats !! path = None.

Definition testRemoved (targetStats prStats : BranchStats) (path : string)
  : Prop :=
  is_Some (files targetStats !! path) ∧ files prStats !! path = None.

Definition testModified (targetStats prStats : BranchStats) (path : string)
  : Prop :=
  match files prStats !! path, files targetStats !! path with
  | Some prFile, Some targetFile => size prFile ≠ size targetFile
  | _, _ => False
  end.

#[global] Instance testAdded_dec targetStats path :
  Decision (testAdded targetStats path).
Proof. unfold testAdded. apply _. Defined.

#[global] Instance testRemoved_dec targetStats prStats path :
  Decision (testRemoved targetStats prStats path).
Proof. unfold testRemoved. apply _. Defined.

#[global] Instance testModified_dec targetStats prStats path :
  Decision (testModified targetStats prStats path).
Proof.
  unfold testModified.
  destruct (files prStats !! path), (files targetStats !! path); apply _.
Defined.

(** ** The label of the collapsible section *)



(** ** Totals *)

(** The sum of one metric over the entries of a [files] object. *)
Definition sumOf (f : FileMetric → Z) (o : gmap string FileMetric) : Z :=
  foldr Z.add 0 ((λ entry, f entry.2) <$> entries o).

(** The totals of a [BranchStats] are the sums over its files. *)
Definition consistent (branchStats : BranchStats) : Prop :=
  totalSize branchStats = sumOf size (files branchStats) ∧
  totalGzip branchStats = sumOf gzip (files branchStats) ∧
  totalBrotli branchStats = sumOf brotli (files branchStats).

(** A call that leaves the comments of the pull request alone and reports
    no failure. *)
Definition quietCall (c : Call) : Prop :=
  match c with
  | ListComments _ _ _ | DeleteComment _ _ _ | CreateComment _ _ _ _
  | SetFailed _ => False
  | _ => True
  end.

(** [w'] follows [w] by calls that are all quiet. *)
Definition quiet {FS : Type} (w w' : World FS) : Prop :=
  comments w' = comments w ∧
  ∃ cs, calls w' = calls w ++ cs ∧ Forall quietCall cs.

(** The key under which [getFileStats] stores a file. *)
Definition keyOf (branch file : string) : string :=
  propertyKey (filePathOf file branch).

(** ** The build steps *)

Definition stepCall (cwd : string) (step : string * list string) : Call :=
  Exec step.1 step.2 cwd.

(** Steps executed one after the other in [cwd], stopping at the first one
    that fails: the calls made, the outcome and the final state. *)
Inductive runsSteps {FS : Type} (host : Host FS) (cwd : string)
  : FS → list (string * list string) → list Call → result unit → FS → Prop :=
| runs_done f : runsSteps host cwd f [] [] (Ok tt) f
| runs_next f f' step rest cs r f'' :
    h_exec host f step.1 step.2 cwd = Ok f' →
    runsSteps host cwd f' rest cs r f'' →
    runsSteps host cwd f (step :: rest) (stepCall cwd step :: cs) r f''
| runs_abort f step rest msg :
    h_exec host f step.1 step.2 cwd = Throw msg →
    runsSteps host cwd f (step :: rest) [stepCall cwd step] (Throw msg) f.

(** ** The two halves of [run] *)

Section RunParts.

Context {FS : Type} (host : Host FS).

(** From the reading of the inputs to the end of [Promise.all]. *)
Definition measure (ctx : Context) (pull_request : PullRequest)
  : M FS (string * string * BranchStats * BranchStats) :=
  let* targetBranch := getInput ctx "target_branch" true in
  let* dirGlob := getInput ctx "dir_glob" true in
  let* script := getInput ctx "pre_diff_script" false in
  let* fileDetailsOpen := getInput ctx "file_details_open" false in
  let* replaceComment := getInput ctx "replace_comment" false in
  let* targetStats :=
    getBranchStats host targetBranch dirGlob (Some script) in
  let* prStats :=
    getBranchStats host (head_ref pull_request) dirGlob (Some script) in
  ret (fileDetailsOpen, replaceComment, targetStats, prStats).

(** From the test of [replaceComment] to the end of the [try] block. *)
Definition publish (repository : Repository) (pull_request : PullRequest)
    (fileDetailsOpen replaceComment : string)
    (targetStats prStats : BranchStats) : M FS unit :=
  (if decide (replaceComment = "true")
   then
     let* data :=
       listComments host (owner_login repository) (name repository)
         (number pull_request) in
     let* deletedCount :=
       deleteExisting host (owner_login repository) (name repository)
         data 0 in
     ret tt
   else ret tt) ;;
  createComment host (owner_login repository) (name repository)
    (number pull_request)
    (getStatComment (h_prettyBytes host) targetStats prStats
       (bool_decide (fileDetailsOpen = "true"))).

End RunParts.

(** A comment that [run] takes for one of its own. *)
Definition marked (c : Comment.t) : bool :=
  match Comment.body c with
  | Some body => JS.startsWith body commentHash
  | None => false
  end.

(** A computation all of whose calls are quiet, whatever its outcome. *)
Definition Quiet {FS A : Type} (m : M FS A) : Prop :=
  ∀ w r w', m w = (r, w') → quiet w w'.
(** ** Further vocabulary *)

(** [s.includes(sep)] *)
Fixpoint includes (s sep : string) : bool :=
  match s with
  | EmptyString => String.prefix sep s
  | String _ s' => String.prefix sep s || includes s' sep
  end.

(** [sep] occurs in [s] at an index below [n]. *)
Definition occursBefore (sep : string) (n : nat) (s : string) : Prop :=
  ∃ a b, s = a +:+ sep +:+ b ∧ (String.length a < n)%nat.


(** A computation that appends calls, all of which satisfy [P]. *)
Definition Calls {FS A : Type} (P : Call → Prop) (m : M FS A) : Prop :=
  ∀ w r w', m w = (r, w') → ∃ cs, calls w' = calls w ++ cs ∧ Forall P cs.


(** A call that runs in the directory [cwd], or in no directory. *)
Definition inDir (cwd : string) (c : Call) : Prop :=
  match c with
  | Cp _ dst => dst = cwd
  | Exec _ _ dir | Globby _ dir => dir = cwd
  | _ => True
  end.

(** The metrics that [getFileStats] measures for [file] in the file system
    [f]; [None] when [stat] or [readFile] is rejected. *)
Definition measured {FS : Type} (host : Host FS) (f : FS) (file : string)
  : option FileMetric :=
  match h_stat host f file, h_readFile host f file with
  | Ok stats_size, Ok fileContents =>
      Some {| size := stats_size;
              gzip := Z.of_nat (length (h_gzip host fileContents));
              brotli := Z.of_nat (length (h_brotliCompress host fileContents)) |}
  | _, _ => None
  end.

Definition sumList (l : list Z) : Z := foldr Z.add 0 l.

(** A call of [getFileStats] about one of the files of [fileList]. *)
Definition fileCall (fileList : list string) (c : Call) : Prop :=
  ∃ file, file ∈ fileList ∧ (c = Stat file ∨ c = ReadFile file).

(** No white space at either end. *)
Definition trimmed (s : string) : Prop :=
  (∀ c t, s = String c t → JS.is_space c = false) ∧
  (∀ t c, s = t +:+ String c "" → JS.is_space c = false).

(** ** The earlier version

    [src/index.ts] holds two versions of the program.  Where the first one
    differs from the second in how it names a file, cuts a command and
    words the label, it is embedded here, to be compared with the second. *)

Module Previous.

(** [file.split('/').slice(7).join('/')] of [getFileStats] *)
Definition filePathOf (file : string) : string :=
  JS.join "/" (drop 7 (JS.split "/" file)).

(** [const [cmdName, ...cmdArgs] = cmd.split(' ')] of [getBranchStats] *)
Definition commandOf (cmd : string) : string * list string :=
  let parts := JS.split " " cmd in
  (default "" (head parts), tail parts).

(** The text of the [summary] element in [getStatComment]. *)
Definition summaryText (fileTotals : FileTotals) : string :=
  let fChangedText :=
    pluralize (changed fileTotals) "file changed" "files changed" in
  let fAddedText := pluralize (added fileTotals) "file added" "files added" in
  let fRemovedText :=
    pluralize (removed fileTotals) "file removed" "files removed" in
  (if decide (changed fileTotals ≠ 0)
   then pretty (changed fileTotals) +:+ " " +:+ fChangedText else "")
  +:+ (if decide (added fileTotals ≠ 0)
       then ", " +:+ pretty (added fileTotals) +:+ " " +:+ fAddedText else "")
  +:+ (if decide (removed fileTotals ≠ 0)
       then ", " +:+ pretty (removed fileTotals) +:+ " " +:+ fRemovedText
       else "").

Section Comments.

Context {FS : Type} (host : Host FS).

(** The message of the [TypeError] that the engine throws where the code
    reads [startsWith] of a [body] that is [undefined]. *)
Variable typeError : string.

(** The loop over [comments.data] of [run]: [comment.body.startsWith],
    with no guard for an absent body, and no count. *)
Fixpoint deleteExisting (owner repo : string) (data : list Comment.t)
  : M FS unit :=
  match data with
  | [] => ret tt
  | comment :: rest =>
      match Comment.body comment with
      | Some body =>
          if JS.startsWith body "<!-- @alex-page was here -->"
          then deleteComment host owner repo (Comment.id comment) ;;
               deleteExisting owner repo rest
          else deleteExisting owner repo rest
      | None => throw typeError
      end
  end.

(** The end of the [try] block of [run], from the listing of the comments
    on: there is no input [replace_comment], and [commentBody] has been
    computed before. *)
Definition publish (owner repo : string) (prNumber : Z) (commentBody : string)
  : M FS unit :=
  let* data := listComments host owner repo prNumber in
  deleteExisting owner repo data ;;
  createComment host owner repo prNumber commentBody.

End Comments.

End Previous.


(** * A sample environment *)

(** pretty-bytes on an integer of magnitude below 1000, where it prints
    the digits and the unit B: [prettyBytes(200)] is "200 B" and
    [prettyBytes(-200, {signed: true})] is "-200 B".  Greater magnitudes,
    which the package scales to kB, MB and so on through floating point,
    are not used with this sample. *)
Definition sampleBytes (n : Z) (signed : bool) : string :=
  if decide (n = 0) then (if signed then " 0 B" else "0 B")
  else (if n <? 0 then "-" else if signed then "+" else "")
       +:+ pretty (Z.abs n) +:+ " B".

(** A file system: the files with their contents. *)
Definition SampleFS : Type := list (string * list Byte.byte).

Definition sampleRoot : string := "/home/runner/work/repo".

(** The absolute path of [../x] when the process runs in
    [sampleRoot/repo]. *)
Definition sampleAbsolute (cwd : string) : string :=
  sampleRoot +:+ JS.sliceFrom cwd 2.

Definition sampleLookup (f : SampleFS) (file : string)
  : result (list Byte.byte) :=
  match list_find (λ e, e.1 = file) f with
  | Some (_, e) => Ok e.2
  | None => Throw ("ENOENT: no such file or directory, open '" +:+ file +:+ "'")
  end.

(** A host on which the commands named in [failing] exit with an error,
    every other call succeeds, and the compressors are stand-ins. *)
Definition sampleHost (failing : list string) : Host SampleFS :=
  {| h_cp := λ f _ _, Ok f;
     h_exec := λ f cmd _ _,
       if decide (cmd ∈ failing)
       then Throw ("The process '" +:+ cmd +:+ "' failed with exit code 1")
       else Ok f;
     h_globby := λ f _ cwd,
       Ok (filter (λ file, JS.startsWith file (sampleAbsolute cwd +:+ "/") = true)
             f.*1);
     h_stat := λ f file,
       match sampleLookup f file with
       | Ok c => Ok (Z.of_nat (length c))
       | Throw msg => Throw msg
       end;
     h_readFile := sampleLookup;
     h_gzip := λ c, c;
     h_brotliCompress := λ c, c;
     h_apiError := λ _ _, None;
     h_newCommentId := λ cs, 1 + foldr Z.max 0 (Comment.id <$> cs);
     h_prettyBytes := sampleBytes |}.

Definition sampleFile (n : nat) : list Byte.byte := replicate n Byte.x00.

Definition sampleWorld (f : SampleFS) (cs : list Comment.t) : World SampleFS :=
  {| fs := f; comments := cs; calls := [] |}.

Definition sampleContext (inputs : gmap string string) : Context :=
  {| GITHUB_TOKEN := Some "token";
     payload :=
       {| repository := Some {| owner_login := "shopify"; name := "repo" |};
          pull_request := Some {| head_ref := "feature"; number := 7 |} |};
     workflowInputs := inputs |}.

(** Two files of the branch [main] below a directory that is itself named
    [main]. *)
Definition nestedFiles : SampleFS :=
  [("/home/runner/work/repo/.filediff/main/src/main/a.js", sampleFile 10);
   ("/home/runner/work/repo/.filediff/main/src/main/b.js", sampleFile 20)].

(** A pull request whose branch changes [dist/x.js] and adds [dist/y.js],
    and one whose branch replaces a file by another of the same size. *)
Definition changedFiles : SampleFS :=
  [("/home/runner/work/repo/.filediff/main/dist/x.js", sampleFile 100);
   ("/home/runner/work/repo/.filediff/feature/dist/x.js", sampleFile 150);
   ("/home/runner/work/repo/.filediff/feature/dist/y.js", sampleFile 50)].

Definition swappedFiles : SampleFS :=
  [("/home/runner/work/repo/.filediff/main/dist/x.js", sampleFile 100);
   ("/home/runner/work/repo/.filediff/feature/dist/y.js", sampleFile 100)].

Definition sampleInputs : gmap string string :=
  {[ "target_branch" := "main"; "dir_glob" := "dist/**";
     "pre_diff_script" := "npm ci && npm run build" ]}.

Definition sampleComments : list Comment.t :=
  [{| Comment.id := 1; Comment.body := Some "hello" |};
   {| Comment.id := 2;
      Comment.body := Some "<!-- @alex-page was here -->an older report" |};
   {| Comment.id := 3; Comment.body := None |};
   {| Comment.id := 4;
      Comment.body := Some "<!-- @alex-page was here -->an old report" |}].

(** * Examples *)

Example split_amp : JS.split "&&" "npm ci && npm run build" = ["npm ci "; " npm run build"].
Proof. reflexivity. Qed.
Example split_amp3 : JS.split "&&" "a&&&b" = ["a"; "&b"].
Proof. reflexivity. Qed.
Example split_empty : JS.split "&&" "" = [""].
Proof. reflexivity. Qed.
Example splitSpaces_ex : JS.splitSpaces "npm  run	build" = ["npm"; "run"; "build"].
Proof. reflexivity. Qed.
Example splitSpaces_lead : JS.splitSpaces " a " = [""; "a"; ""].
Proof. reflexivity. Qed.
Example trim_ex : JS.trim "  npm ci  " = "npm ci".
Proof. reflexivity. Qed.
Example lastIndexOf_ex : JS.lastIndexOf "a/b/c" "/" = 3.
Proof. reflexivity. Qed.
Example lastIndexOf_none : JS.lastIndexOf "abc" "/" = -1.
Proof. reflexivity. Qed.
Example slice_ex : JS.slice "a/b/c" 0 (JS.lastIndexOf "a/b/c" "/" + 1) = "a/b/".
Proof. reflexivity. Qed.
Example sliceFrom_ex : JS.sliceFrom "a/b/c" 2 = "b/c".
Proof. reflexivity. Qed.
Example common_start_paths :
  getCommonStringStart ["a/b/c.js"; "a/b/d.js"; "a/e.js"] = "a/".
Proof. reflexivity. Qed.
Example common_path_partial_segment :
  commonFilePathOf (getCommonStringStart ["a/b/c.js"; "a/bc.js"]) = "a/".
Proof. reflexivity. Qed.
Example commands_of_script :
  commandOf <$> commandsOf "npm ci && npm run  build"
  = [("npm", ["ci"]); ("npm", ["run"; "build"])].
Proof. reflexivity. Qed.
Example key_of_file :
  filePathOf "/home/runner/work/repo/.filediff/feature/x/dist/a.js" "feature/x"
  = Some "dist/a.js".
Proof. reflexivity. Qed.
Example sampleBytes_values :
  sampleBytes 200 false = "200 B" ∧ sampleBytes (-200) true = "-200 B"
  ∧ sampleBytes 50 true = "+50 B".
Proof. repeat split; reflexivity. Qed.

(** The scenario of section 8: [x.js] grows from 100 to 150 bytes and
    [y.js] of 50 bytes is new. *)
Example scenario_changed_and_added :
  let metric := λ n, {| size := n; gzip := n; brotli := n |} in
  let targetStats :=
    {| totalSize := 100; totalGzip := 100; totalBrotli := 100;
       files := {[ "x.js" := metric 100 ]} |} in
  let prStats :=
    {| totalSize := 200; totalGzip := 200; totalBrotli := 200;
       files := {[ "x.js" := metric 150; "y.js" := metric 50 ]} |} in
  fileChangesOf targetStats prStats = (["y.js"], [], ["x.js"]) ∧
  JS.join ", " (detailsSummaryText (fileColumnsOf sampleBytes targetStats prStats).1)
  = "1 file changed, 1 file added" ∧
  getDiff sampleBytes (totalSize prStats) (totalSize targetStats) = "+100 B".
Proof. repeat split; reflexivity. Qed.

(** * Facts about strings *)







(** * Strings *)

Lemma string_app_cons a s t : String a s +:+ t = String a (s +:+ t).
Proof. reflexivity. Qed.

Lemma string_app_nil_l s : "" +:+ s = s.
Proof. reflexivity. Qed.

Lemma string_app_nil_r s : s +:+ "" = s.
Proof. induction s as [|a s IH]; [reflexivity|]. by rewrite string_app_cons, IH. Qed.

Lemma string_app_assoc s t u : (s +:+ t) +:+ u = s +:+ (t +:+ u).
Proof. induction s as [|a s IH]; [reflexivity|]. by rewrite !string_app_cons, IH. Qed.

Lemma string_length_app s t :
  String.length (s +:+ t) = (String.length s + String.length t)%nat.
Proof. induction s as [|a s IH]; [reflexivity|]. simpl. by rewrite IH. Qed.

Lemma get_app_length pre s :
  String.get (String.length pre) (pre +:+ s) = String.get 0 s.
Proof. induction pre as [|a pre IH]; [reflexivity|]. simpl. exact IH. Qed.

Lemma substring_app_length pre s :
  String.substring 0 (String.length pre) (pre +:+ s) = pre.
Proof.
  induction pre as [|a pre IH]; simpl.
  - destruct s; reflexivity.
  - by rewrite IH.
Qed.

Lemma slice_app_length pre s :
  JS.slice (pre +:+ s) 0 (Z.of_nat (String.length pre)) = pre.
Proof.
  unfold JS.slice, JS.clampIndex. rewrite string_length_app.
  replace (0 <? 0) with false by reflexivity.
  destruct (Z.ltb_spec (Z.of_nat (String.length pre)) 0) as [?|_]; [lia|].
  rewrite Z.min_l by lia. rewrite Z.min_l by lia.
  replace (Z.to_nat 0) with 0%nat by reflexivity.
  rewrite Z.sub_0_r, Z.max_l by lia. rewrite Nat2Z.id.
  apply substring_app_length.
Qed.

Lemma prefixOf_nil s : prefixOf "" s.
Proof. by exists s. Qed.

Lemma prefixOf_refl s : prefixOf s s.
Proof. exists "". by rewrite string_app_nil_r. Qed.

Lemma prefixOf_cons a p s : prefixOf (String a p) (String a s) ↔ prefixOf p s.
Proof.
  split; intros [t Ht].
  - exists t. rewrite string_app_cons in Ht. by injection Ht.
  - exists t. rewrite string_app_cons. by rewrite Ht.
Qed.

Lemma prefixOf_cons_inv a p s :
  prefixOf (String a p) s → ∃ s', s = String a s' ∧ prefixOf p s'.
Proof. intros [t ->]. exists (p +:+ t). split; [reflexivity|by exists t]. Qed.

Lemma prefixOf_trans p q s : prefixOf p q → prefixOf q s → prefixOf p s.
Proof. intros [t ->] [u ->]. exists (t +:+ u). by rewrite string_app_assoc. Qed.

Lemma prefixOf_app p t : prefixOf p (p +:+ t).
Proof. by exists t. Qed.

(** * The scan of [getCommonStringStart] *)

Lemma commonPrefix_prefix_l a b : prefixOf (commonPrefix a b) a.
Proof.
  revert b. induction a as [|x a IH]; intros [|y b]; simpl; try apply prefixOf_nil.
  case_decide; [|apply prefixOf_nil]. apply prefixOf_cons, IH.
Qed.

Lemma commonPrefix_prefix_r a b : prefixOf (commonPrefix a b) b.
Proof.
  revert b. induction a as [|x a IH]; intros [|y b]; simpl; try apply prefixOf_nil.
  case_decide; [|apply prefixOf_nil]. subst. apply prefixOf_cons, IH.
Qed.

Lemma commonPrefix_greatest q a b :
  prefixOf q a → prefixOf q b → prefixOf q (commonPrefix a b).
Proof.
  revert a b. induction q as [|c q IH]; intros a b Ha Hb; [apply prefixOf_nil|].
  apply prefixOf_cons_inv in Ha as (a' & -> & Ha).
  apply prefixOf_cons_inv in Hb as (b' & -> & Hb).
  simpl. rewrite decide_True by done. apply prefixOf_cons. by apply IH.
Qed.

Lemma commonScan_spec pre f l :
  commonScan (pre +:+ f) (pre +:+ l) (String.length f) (String.length pre)
  = pre +:+ commonPrefix f l.
Proof.
  revert pre l. induction f as [|a f IH]; intros pre l.
  - reflexivity.
  - cbn [String.length commonScan]. unfold JS.charAt.
    rewrite !get_app_length.
    destruct l as [|b l]; cbn [String.get commonPrefix].
    + rewrite decide_False by done. by rewrite slice_app_length, string_app_nil_r.
    + destruct (decide (a = b)) as [->|Hne].
      * rewrite decide_True by done.
        specialize (IH (pre +:+ String b "") l).
        rewrite !string_app_assoc in IH. cbn [String.append] in IH.
        rewrite string_length_app in IH. cbn [String.length] in IH.
        replace (String.length pre + 1)%nat with (S (String.length pre)) in IH by lia.
        exact IH.
      * rewrite decide_False by congruence. by rewrite slice_app_length, string_app_nil_r.
Qed.

Lemma commonScan_commonPrefix first last :
  commonScan first last (String.length first) 0 = commonPrefix first last.
Proof. exact (commonScan_spec "" first last). Qed.

(** * Sorting *)

Lemma le_sandwich lo hi s :
  (lo ≤ s)%string → (s ≤ hi)%string → prefixOf (commonPrefix lo hi) s.
Proof.
  unfold String.le, String.leb.
  revert hi s. induction lo as [|a lo IH]; intros hi s Hlo Hhi;
    [apply prefixOf_nil|].
  destruct hi as [|b hi]; [apply prefixOf_nil|].
  cbn [commonPrefix]. case_decide as Hab; [subst b|apply prefixOf_nil].
  destruct s as [|c s]; [done|].
  cbn [String.compare] in Hlo, Hhi.
  destruct (Ascii.compare a c) eqn:Hac.
  - apply Ascii.compare_eq_iff in Hac as <-.
    assert (Ascii.compare a a = Eq) as Haa.
    { unfold Ascii.compare. apply N.compare_refl. }
    rewrite Haa in Hhi. apply prefixOf_cons. by apply IH.
  - rewrite Ascii.compare_antisym, Hac in Hhi. done.
  - done.
Qed.

Lemma sorted_extremes (l : list string) x :
  StronglySorted String.le l → x ∈ l →
  (default "" (head l) ≤ x)%string ∧ (x ≤ default "" (last l))%string.
Proof.
  intros Hs. revert x. induction Hs as [|y l Hs IH Hall]; intros x Hx.
  - by apply elem_of_nil in Hx.
  - rewrite Forall_forall in Hall. cbn [head default].
    apply elem_of_cons in Hx. split.
    + destruct Hx as [->|Hx]; [done|]. by apply Hall.
    + rewrite last_cons. destruct (last l) as [z|] eqn:Hz; cbn [default].
      * destruct Hx as [->|Hx].
        -- apply Hall. by apply last_Some_elem_of.
        -- by specialize (IH x Hx) as [_ IH].
      * apply last_None in Hz. subst l.
        destruct Hx as [->|Hx]; [done|]. by apply elem_of_nil in Hx.
Qed.

(** [getCommonStringStart] on two strings or more: the longest prefix common
    to all of them, which is the one common to the least and the greatest. *)
Lemma getCommonStringStart_spec (strings : list string) :
  (2 ≤ length strings)%nat →
  ∃ lo hi,
    lo ∈ strings ∧ hi ∈ strings ∧
    (∀ s, s ∈ strings → (lo ≤ s)%string ∧ (s ≤ hi)%string) ∧
    getCommonStringStart strings = commonPrefix lo hi ∧
    (∀ s, s ∈ strings → prefixOf (getCommonStringStart strings) s) ∧
    (∀ q, (∀ s, s ∈ strings → prefixOf q s) →
          prefixOf q (getCommonStringStart strings)).
Proof.
  intros Hlen. unfold getCommonStringStart.
  destruct (Nat.ltb_spec (length strings) 2) as [?|_]; [lia|].
  cbv zeta. rewrite commonScan_commonPrefix.
  set (sorted := merge_sort String.le strings).
  assert (Hperm : sorted ≡ₚ strings) by apply merge_sort_Permutation.
  assert (Hsorted : StronglySorted String.le sorted)
    by apply (StronglySorted_merge_sort _).
  assert (Hne : sorted ≠ []).
  { intros H0. rewrite H0 in Hperm. apply Permutation_nil_l in Hperm.
    subst strings. simpl in Hlen. lia. }
  destruct (head sorted) as [lo|] eqn:Hlo; [|by apply head_None in Hlo].
  destruct (last sorted) as [hi|] eqn:Hhi; [|by apply last_None in Hhi].
  cbn [default].
  assert (Hext : ∀ s, s ∈ strings → (lo ≤ s)%string ∧ (s ≤ hi)%string).
  { intros s Hs. rewrite <- Hperm in Hs.
    pose proof (sorted_extremes sorted s Hsorted Hs) as H.
    by rewrite Hlo, Hhi in H. }
  assert (Hlo_in : lo ∈ strings).
  { rewrite <- Hperm. by apply head_Some_elem_of. }
  assert (Hhi_in : hi ∈ strings).
  { rewrite <- Hperm. by apply last_Some_elem_of. }
  exists lo, hi. repeat split; try done; try (by apply Hext).
  - intros s Hs. destruct (Hext s Hs). by apply le_sandwich.
  - intros q Hq. apply commonPrefix_greatest; by apply Hq.
Qed.

Lemma getCommonStringStart_short (strings : list string) :
  (length strings < 2)%nat → getCommonStringStart strings = "".
Proof.
  intros H. unfold getCommonStringStart.
  by destruct (Nat.ltb_spec (length strings) 2) as [_|?]; [|lia].
Qed.

(** * Truncation to the last separator *)



Lemma occurs_get c s n : String.get n s = Some c → occurs c s.
Proof.
  revert n. induction s as [|x s IH]; intros n H; [done|].
  destruct n as [|n]; simpl in *.
  - left. congruence.
  - right. eauto.
Qed.

Lemma get_app_r pre s n :
  String.get (String.length pre + n) (pre +:+ s) = String.get n s.
Proof. induction pre as [|a pre IH]; [reflexivity|]. simpl. exact IH. Qed.

Lemma prefixOf_shorter p q s :
  prefixOf p s → prefixOf q s → (String.length p ≤ String.length q)%nat →
  prefixOf p q.
Proof.
  revert q s. induction p as [|a p IH]; intros q s Hp Hq Hlen;
    [apply prefixOf_nil|].
  apply prefixOf_cons_inv in Hp as (s' & -> & Hp).
  destruct q as [|b q]; [simpl in Hlen; lia|].
  apply prefixOf_cons_inv in Hq as (s'' & Heq & Hq).
  injection Heq as -> ->.
  apply prefixOf_cons. apply (IH q s''); [done..|]. simpl in Hlen. lia.
Qed.

Lemma substring_0_0 s : String.substring 0 0 s = "".
Proof. by destruct s. Qed.

Lemma prefix_slash s :
  String.prefix "/" s = true ↔ ∃ s', s = String "/" s'.
Proof.
  destruct s as [|x s]; cbn [String.prefix].
  - split; [done|]. by intros [s' ?].
  - destruct (ascii_dec "/" x) as [<-|Hne].
    + destruct s; split; eauto.
    + split; [done|]. intros [s' [= ? ?]]. congruence.
Qed.

Lemma lastIndexOf_go_spec s i found :
  (¬ occurs "/" s ∧ JS.lastIndexOf_go "/" i found s = found) ∨
  (∃ a b, s = (a +:+ "/") +:+ b ∧ ¬ occurs "/" b ∧
          JS.lastIndexOf_go "/" i found s = i + Z.of_nat (String.length a)).
Proof.
  revert i found. induction s as [|x s IH]; intros i found.
  - left. split; [simpl; tauto|reflexivity].
  - cbn [JS.lastIndexOf_go].
    destruct (IH (i + 1) (if String.prefix "/" (String x s) then i else found))
      as [[Hno Heq]|(a & b & -> & Hb & Heq)].
    + destruct (String.prefix "/" (String x s)) eqn:Hp.
      * apply prefix_slash in Hp as [s' [= -> ->]].
        right. exists "", s'. split; [reflexivity|]. split; [done|].
        rewrite Heq. simpl. lia.
      * left. split; [|done]. intros [->|?]; [|done].
        assert (String.prefix "/" (String "/" s) = true) as Ht
          by (apply prefix_slash; eauto).
        congruence.
    + right. exists (String x a), b. split; [reflexivity|]. split; [done|].
      rewrite Heq. cbn [String.length]. lia.
Qed.

Lemma commonFilePathOf_cases s :
  (¬ occurs "/" s ∧ commonFilePathOf s = "") ∨
  (∃ a b, s = (a +:+ "/") +:+ b ∧ ¬ occurs "/" b ∧
          commonFilePathOf s = a +:+ "/").
Proof.
  unfold commonFilePathOf, JS.lastIndexOf.
  destruct (lastIndexOf_go_spec s 0 (-1)) as [[Hno ->]|(a & b & Hs & Hb & ->)].
  - left. split; [done|]. unfold JS.slice, JS.clampIndex.
    replace (-1 + 1) with 0 by lia. replace (0 <? 0) with false by reflexivity.
    rewrite Z.min_l by lia. rewrite Z.sub_0_r, Z.max_l by lia.
    apply substring_0_0.
  - right. exists a, b. split; [done|]. split; [done|].
    rewrite Hs at 1.
    replace (0 + Z.of_nat (String.length a) + 1)
      with (Z.of_nat (String.length (a +:+ "/")))
      by (rewrite string_length_app; simpl; lia).
    apply slice_app_length.
Qed.

Lemma commonFilePathOf_prefix s : prefixOf (commonFilePathOf s) s.
Proof.
  destruct (commonFilePathOf_cases s) as [[_ ->]|(a & b & Hs & _ & ->)].
  - apply prefixOf_nil.
  - by exists b.
Qed.

Lemma commonFilePathOf_aligned s : directoryAligned (commonFilePathOf s).
Proof.
  destruct (commonFilePathOf_cases s) as [[_ ->]|(a & b & Hs & _ & ->)].
  - by left.
  - right. by exists a.
Qed.

Lemma commonFilePathOf_greatest s d :
  prefixOf (d +:+ "/") s → prefixOf (d +:+ "/") (commonFilePathOf s).
Proof.
  intros Hd.
  assert (Hget : String.get (String.length d) s = Some "/"%char).
  { destruct Hd as [t ->]. rewrite string_app_assoc.
    replace (String.length d) with (String.length d + 0)%nat by lia.
    by rewrite get_app_r. }
  destruct (commonFilePathOf_cases s) as [[Hno _]|(a & b & Hs & Hb & ->)].
  - exfalso. apply Hno. by eapply occurs_get.
  - apply (prefixOf_shorter _ _ s); [done|by exists b|].
    rewrite !string_length_app. cbn [String.length].
    destruct (decide (String.length d ≤ String.length a)%nat) as [|Hgt]; [lia|].
    exfalso. apply Hb. apply (occurs_get _ _ (String.length d - String.length a - 1)).
    rewrite <- Hget, Hs.
    replace (String.length d)
      with (String.length (a +:+ "/") + (String.length d - String.length a - 1))%nat
      at 2 by (rewrite string_length_app; simpl; lia).
    by rewrite get_app_r.
Qed.

(** * Splitting at a separator *)

Lemma rev_app_app s1 s2 t :
  String.rev_app s1 s2 +:+ t = String.rev_app s1 (s2 +:+ t).
Proof.
  revert s2. induction s1 as [|c s1 IH]; intros s2; [done|].
  cbn [String.rev_app]. by rewrite IH.
Qed.

Lemma rev_cons_app c acc s :
  String.rev (String c acc) +:+ s = String.rev acc +:+ String c s.
Proof. unfold String.rev. cbn [String.rev_app]. by rewrite !rev_app_app. Qed.

Lemma prefix_prefixOf p s : String.prefix p s = true ↔ prefixOf p s.
Proof.
  revert s. induction p as [|a p IH]; intros s.
  - split; [intros _; apply prefixOf_nil|]. by destruct s.
  - destruct s as [|b s]; cbn [String.prefix].
    + split; [done|]. by intros [t Ht].
    + destruct (ascii_dec a b) as [->|Hne].
      * by rewrite IH, prefixOf_cons.
      * split; [done|]. intros [t Ht]. injection Ht as Hab _. congruence.
Qed.



Lemma split_go_skip sep u acc s :
  JS.split_go sep (String.length u) acc (u +:+ s) = JS.split_go sep 0 acc s.
Proof.
  induction u as [|c u IH]; [done|]. rewrite string_app_cons.
  cbn [String.length JS.split_go]. exact IH.
Qed.

Lemma split_go_none sep acc s :
  ¬ occursIn sep s → JS.split_go sep 0 acc s = [String.rev acc +:+ s].
Proof.
  revert acc. induction s as [|c s IH]; intros acc Hno.
  - cbn. by rewrite string_app_nil_r.
  - cbn [JS.split_go].
    destruct (String.prefix sep (String c s)) eqn:Hp.
    + exfalso. apply Hno. apply prefix_prefixOf in Hp as [t Ht].
      by exists "", t.
    + rewrite IH, rev_cons_app; [done|].
      intros (a & b & ->). apply Hno. by exists (String c a), b.
Qed.

Lemma split_go_first sep a b acc :
  sep ≠ "" →
  (∀ a' b', a +:+ sep = a' +:+ sep +:+ b' → b' = "") →
  JS.split_go sep 0 acc (a +:+ sep +:+ b)
  = (String.rev acc +:+ a) :: JS.split_go sep 0 "" b.
Proof.
  intros Hsep. revert acc. induction a as [|x a IH]; intros acc Hfirst.
  - destruct sep as [|c u]; [done|].
    rewrite string_app_nil_l, string_app_cons, string_app_nil_r.
    cbn [JS.split_go].
    assert (String.prefix (String c u) (String c (u +:+ b)) = true) as ->.
    { apply prefix_prefixOf. by exists b. }
    f_equal. cbn [String.length].
    rewrite Nat.sub_succ, Nat.sub_0_r. apply split_go_skip.
  - rewrite string_app_cons. cbn [JS.split_go].
    destruct (String.prefix sep (String x (a +:+ sep +:+ b))) eqn:Hp.
    + exfalso. apply prefix_prefixOf in Hp.
      assert (prefixOf sep (String x a +:+ sep)) as [t Ht].
      { apply (prefixOf_shorter _ _ (String x (a +:+ sep +:+ b))); [done| |].
        - exists b. by rewrite string_app_assoc.
        - rewrite string_length_app. lia. }
      assert (t = "") as ->.
      { apply (Hfirst "" t). by rewrite Ht, string_app_nil_l. }
      rewrite string_app_nil_r in Ht.
      apply (f_equal String.length) in Ht.
      rewrite string_length_app in Ht. cbn in Ht. lia.
    + rewrite IH, rev_cons_app; [done|].
      intros a' b' Heq. apply (Hfirst (String x a') b').
      by rewrite !string_app_cons, Heq.
Qed.

(** The key of a file is its path relative to the workspace when the name
    of the branch, followed by the separator, occurs nowhere else in the
    absolute path. *)
Lemma filePathOf_relative root branch rel :
  (∀ a' b', root +:+ (branch +:+ "/") = a' +:+ (branch +:+ "/") +:+ b' → b' = "") →
  ¬ occursIn (branch +:+ "/") rel →
  filePathOf (root +:+ (branch +:+ "/") +:+ rel) branch = Some rel.
Proof.
  intros Hfirst Hrel. unfold filePathOf, JS.split.
  rewrite split_go_first; [|by destruct branch|done].
  by rewrite split_go_none.
Qed.

Lemma split_go_nonempty sep skip acc s : JS.split_go sep skip acc s ≠ [].
Proof.
  revert skip acc. induction s as [|c s IH]; intros skip acc; [done|].
  cbn [JS.split_go]. destruct skip; [|apply IH].
  destruct (String.prefix sep (String c s)); [done|apply IH].
Qed.

Lemma concat_cons_nonempty sep x (l : list string) :
  l ≠ [] → String.concat sep (x :: l) = x +:+ sep +:+ String.concat sep l.
Proof. by destruct l. Qed.

(** Joining the pieces with the separator gives the string back. *)
Lemma join_split_go sep n : ∀ s acc,
  sep ≠ "" → (String.length s ≤ n)%nat →
  JS.join sep (JS.split_go sep 0 acc s) = String.rev acc +:+ s.
Proof.
  unfold JS.join.
  induction n as [|n IH]; intros s acc Hsep Hlen.
  - destruct s; [|cbn in Hlen; lia]. cbn. by rewrite string_app_nil_r.
  - destruct s as [|c s]; [cbn; by rewrite string_app_nil_r|].
    cbn [JS.split_go]. cbn [String.length] in Hlen.
    destruct (String.prefix sep (String c s)) eqn:Hp.
    + apply prefix_prefixOf in Hp as [t Ht].
      destruct sep as [|c' u]; [done|].
      rewrite string_app_cons in Ht. injection Ht as <- ->.
      cbn [String.length]. rewrite Nat.sub_succ, Nat.sub_0_r, split_go_skip.
      rewrite concat_cons_nonempty by apply split_go_nonempty.
      rewrite IH; [| done |].
      * change (String.rev "") with "". by rewrite string_app_nil_l, string_app_cons.
      * rewrite string_length_app in Hlen. lia.
    + rewrite IH, rev_cons_app; [done..|lia].
Qed.

Lemma join_split sep s : sep ≠ "" → JS.join sep (JS.split sep s) = s.
Proof.
  intros Hsep. unfold JS.split.
  by rewrite (join_split_go sep (String.length s)).
Qed.

(** * Tokens *)



Lemma occurs_app c a b : occurs c (a +:+ b) ↔ occurs c a ∨ occurs c b.
Proof.
  induction a as [|x a IH]; [cbn; tauto|].
  rewrite string_app_cons. cbn [occurs]. rewrite IH. tauto.
Qed.

Lemma occurs_rev_cons c x acc :
  occurs c (String.rev (String x acc)) ↔ x = c ∨ occurs c (String.rev acc).
Proof.
  rewrite <- (string_app_nil_r (String.rev (String x acc))), rev_cons_app.
  rewrite occurs_app. cbn [occurs]. tauto.
Qed.

Lemma splitSpaces_go_noSpace inRun acc s t :
  noSpace (String.rev acc) → t ∈ JS.splitSpaces_go inRun acc s → noSpace t.
Proof.
  revert inRun acc. induction s as [|c s IH]; intros inRun acc Hacc.
  - cbn. by intros ->%list_elem_of_singleton.
  - cbn [JS.splitSpaces_go]. destruct (JS.is_space c) eqn:Hc.
    + destruct inRun; [by apply IH|].
      intros [->|Hin]%elem_of_cons; [done|].
      apply (IH true ""); [|done]. by intros ? [].
    + apply IH. intros x [<-|Hx]%occurs_rev_cons; [done|by apply Hacc].
Qed.

Lemma splitSpaces_noSpace s t : t ∈ JS.splitSpaces s → noSpace t.
Proof. apply splitSpaces_go_noSpace. by intros ? []. Qed.

(** * Trimming *)



Lemma rev_app_rev s1 s2 : String.rev_app s1 s2 = String.rev s1 +:+ s2.
Proof. unfold String.rev. by rewrite rev_app_app. Qed.

Lemma rev_cons c s : String.rev (String c s) = String.rev s +:+ String c "".
Proof. unfold String.rev at 1. cbn [String.rev_app]. apply rev_app_rev. Qed.

Lemma rev_app_distr a b : String.rev (a +:+ b) = String.rev b +:+ String.rev a.
Proof.
  induction a as [|c a IH].
  - by rewrite string_app_nil_l, string_app_nil_r.
  - by rewrite string_app_cons, !rev_cons, IH, string_app_assoc.
Qed.

Lemma rev_involutive s : String.rev (String.rev s) = s.
Proof.
  induction s as [|c s IH]; [done|].
  by rewrite rev_cons, rev_app_distr, IH.
Qed.

Lemma occurs_rev c s : occurs c (String.rev s) ↔ occurs c s.
Proof.
  induction s as [|x s IH]; [done|].
  rewrite rev_cons, occurs_app, IH. cbn [occurs]. tauto.
Qed.

Lemma trimStart_spec s :
  ∃ l, s = l +:+ JS.trimStart s ∧ allSpace l ∧
       ∀ c t, JS.trimStart s = String c t → JS.is_space c = false.
Proof.
  induction s as [|x s (l & Hs & Hl & Hhead)].
  - exists "". split; [done|]. split; [by intros ? []|done].
  - cbn [JS.trimStart]. destruct (JS.is_space x) eqn:Hx.
    + exists (String x l). split; [by rewrite string_app_cons, <- Hs|].
      split; [|done]. intros c [<-|Hc]; [done|by apply Hl].
    + exists "". split; [done|]. split; [by intros ? []|].
      by intros c t [= <- _].
Qed.

Lemma trimEnd_spec s :
  ∃ r, s = JS.trimEnd s +:+ r ∧ allSpace r ∧
       ∀ t c, JS.trimEnd s = t +:+ String c "" → JS.is_space c = false.
Proof.
  destruct (trimStart_spec (String.rev s)) as (l & Hs & Hl & Hhead).
  exists (String.rev l). unfold JS.trimEnd. split; [|split].
  - rewrite <- rev_app_distr, <- Hs. by rewrite rev_involutive.
  - intros c Hc. by apply Hl, occurs_rev.
  - intros t c Ht. apply (Hhead c (String.rev t)).
    apply (f_equal String.rev) in Ht.
    by rewrite rev_involutive, rev_app_distr in Ht.
Qed.

(** [trim] removes white space, and only white space, from both ends, and
    leaves none there. *)
Lemma trim_spec s :
  ∃ l r, s = l +:+ JS.trim s +:+ r ∧ allSpace l ∧ allSpace r ∧
         (∀ c t, JS.trim s = String c t → JS.is_space c = false) ∧
         (∀ t c, JS.trim s = t +:+ String c "" → JS.is_space c = false).
Proof.
  destruct (trimStart_spec s) as (l & Hs & Hl & Hhead).
  destruct (trimEnd_spec (JS.trimStart s)) as (r & Hts & Hr & Hlast).
  exists l, r. unfold JS.trim. split; [by rewrite <- Hts|].
  split; [done|]. split; [done|]. split; [|done].
  intros c t Ht. apply (Hhead c (t +:+ r)). by rewrite Hts at 1; rewrite Ht.
Qed.

(** * The union of the paths *)

Lemma elem_of_keys (o : gmap string FileMetric) p :
  p ∈ keys o ↔ is_Some (o !! p).
Proof.
  unfold keys, entries. rewrite list_elem_of_fmap. split.
  - intros [[k m] [-> H]]. apply elem_of_map_to_list in H. by exists m.
  - intros [m H]. exists (p, m). split; [done|]. by apply elem_of_map_to_list.
Qed.




Lemma elem_of_setOf_go l seen x :
  x ∈ foldl setAdd seen l ↔ x ∈ seen ∨ x ∈ l.
Proof.
  revert seen. induction l as [|y l IH]; intros seen; cbn [foldl].
  - rewrite elem_of_nil. tauto.
  - rewrite IH, elem_of_cons. unfold setAdd. case_decide as Hy.
    + split; [tauto|]. intros [?|[->|?]]; tauto.
    + rewrite elem_of_app, list_elem_of_singleton. tauto.
Qed.


Lemma elem_of_setOf l x : x ∈ setOf l ↔ x ∈ l.
Proof.
  unfold setOf.
  rewrite elem_of_setOf_go, elem_of_nil. tauto.
Qed.


Lemma elem_of_allFilePaths targetStats prStats p :
  p ∈ allFilePaths targetStats prStats ↔
  is_Some (files prStats !! p) ∨ is_Some (files targetStats !! p).
Proof.
  unfold allFilePaths. by rewrite elem_of_setOf, elem_of_app, !elem_of_keys.
Qed.


(** C3 as amended.  For fewer than two paths in the union the displayed
    prefix is empty.  For two paths or more, [getCommonStringStart] is the
    longest prefix common to all the paths, it is the common prefix of the
    least and the greatest path, and the displayed prefix is that string cut
    after its last separator: the longest directory prefix common to all the
    paths. *)
Theorem commonFilePath_longest_directory (targetStats prStats : BranchStats) :
  let paths := allFilePaths targetStats prStats in
  let commonStart := getCommonStringStart paths in
  let shown := commonFilePath targetStats prStats in
  ((length paths < 2)%nat → shown = "") ∧
  ((2 ≤ length paths)%nat →
   (∀ p, p ∈ paths → prefixOf commonStart p) ∧
   (∀ q, (∀ p, p ∈ paths → prefixOf q p) → prefixOf q commonStart) ∧
   (∃ lo hi, lo ∈ paths ∧ hi ∈ paths ∧
      (∀ p, p ∈ paths → (lo ≤ p)%string ∧ (p ≤ hi)%string) ∧
      commonStart = commonPrefix lo hi) ∧
   prefixOf shown commonStart ∧
   directoryAligned shown ∧
   (∀ d, prefixOf (d +:+ "/") commonStart → prefixOf (d +:+ "/") shown) ∧
   (∀ d, (∀ p, p ∈ paths → prefixOf (d +:+ "/") p) →
         prefixOf (d +:+ "/") shown)).
Proof.
  intros paths commonStart shown. split.
  - intros Hlen. unfold shown, commonFilePath. fold paths.
    by rewrite getCommonStringStart_short.
  - intros Hlen.
    destruct (getCommonStringStart_spec paths Hlen)
      as (lo & hi & Hlo & Hhi & Hext & Heq & Hpre & Hgreatest).
    fold commonStart in Heq, Hpre, Hgreatest.
    split; [done|]. split; [done|].
    split; [by exists lo, hi|].
    split; [apply commonFilePathOf_prefix|].
    split; [apply commonFilePathOf_aligned|].
    split; [intros d; apply commonFilePathOf_greatest|].
    intros d Hd. apply commonFilePathOf_greatest. by apply Hgreatest.
Qed.

Lemma commonFilePath_longest_directory_witness :
  let metric := λ n, {| size := n; gzip := n; brotli := n |} in
  let targetStats :=
    {| totalSize := 100; totalGzip := 100; totalBrotli := 100;
       files := {[ "dist/app/x.js" := metric 100 ]} |} in
  let prStats :=
    {| totalSize := 200; totalGzip := 200; totalBrotli := 200;
       files := {[ "dist/app/x.js" := metric 150;
                   "dist/assets/y.js" := metric 50 ]} |} in
  (2 ≤ length (allFilePaths targetStats prStats))%nat ∧
  getCommonStringStart (allFilePaths targetStats prStats) = "dist/a" ∧
  commonFilePath targetStats prStats = "dist/" ∧
  prefixOf (commonFilePath targetStats prStats)
    (getCommonStringStart (allFilePaths targetStats prStats)).
Proof.
  intros metric targetStats prStats.
  assert (Hlen : (2 ≤ length (allFilePaths targetStats prStats))%nat)
    by (vm_compute; lia).
  destruct (commonFilePath_longest_directory targetStats prStats) as [_ Hlong].
  destruct (Hlong Hlen) as (_ & _ & _ & Hprefix & _).
  split; [exact Hlen|]. split; [reflexivity|]. split; [reflexivity|].
  exact Hprefix.
Defined.

(** A single path: its directory is common to every path of the union, and
    the displayed prefix is empty all the same. *)
Lemma singleton_prefix_is_empty :
  let prStats :=
    {| totalSize := 10; totalGzip := 10; totalBrotli := 10;
       files := {[ "a/b/c.js" := {| size := 10; gzip := 10; brotli := 10 |} ]} |} in
  allFilePaths emptyStats prStats = ["a/b/c.js"] ∧
  commonFilePath emptyStats prStats = "" ∧
  (∀ p, p ∈ allFilePaths emptyStats prStats → prefixOf ("a/b" +:+ "/") p) ∧
  ¬ prefixOf ("a/b" +:+ "/") (commonFilePath emptyStats prStats).
Proof.
  intros prStats.
  assert (Hpaths : allFilePaths emptyStats prStats = ["a/b/c.js"])
    by reflexivity.
  assert (Hshown : commonFilePath emptyStats prStats = "") by reflexivity.
  rewrite Hpaths, Hshown. repeat split.
  - intros p ->%list_elem_of_singleton. by exists "c.js".
  - intros [t Ht]. discriminate Ht.
Qed.

(** * The loops of [getStatComment] *)




Lemma countOf_nonneg f l : 0 ≤ countOf f l.
Proof. unfold countOf. lia. Qed.





Section RenderFacts.

Variable prettyBytes : Z → bool → string.
Variables targetStats prStats : BranchStats.
Variable cfp : string.





End RenderFacts.


(** * What is reported, against the classification *)











(** * The three lists of [run] *)

Section FileChanges.

Variables targetStats prStats : BranchStats.








End FileChanges.




(** * The label of the collapsible section *)







(** * The row of a removed file *)




(** * The monad *)

Section MonadFacts.

Context {FS : Type}.

Lemma bind_inv {A B} (m : M FS A) (k : A → M FS B) w r w'' :
  bind m k w = (r, w'') →
  (∃ a w', m w = (Ok a, w') ∧ k a w' = (r, w'')) ∨
  (∃ msg, m w = (Throw msg, w'') ∧ r = Throw msg).
Proof.
  unfold bind. destruct (m w) as [[a|msg] w'] eqn:Hm.
  - intros Hk. left. by exists a, w'.
  - intros [= <- <-]. right. by exists msg.
Qed.

Lemma bind_Ok_inv {A B} (m : M FS A) (k : A → M FS B) w b w'' :
  bind m k w = (Ok b, w'') →
  ∃ a w', m w = (Ok a, w') ∧ k a w' = (Ok b, w'').
Proof. intros [H|(msg & _ & ?)]%bind_inv; [done|congruence]. Qed.

Lemma bind_Ok {A B} (m : M FS A) (k : A → M FS B) w a w' :
  m w = (Ok a, w') → bind m k w = k a w'.
Proof. unfold bind. by intros ->. Qed.

Lemma bind_Throw {A B} (m : M FS A) (k : A → M FS B) w msg w' :
  m w = (Throw msg, w') → bind m k w = (Throw msg, w').
Proof. unfold bind. by intros ->. Qed.

(** ** Quiet computations *)

Lemma quiet_refl (w : World FS) : quiet w w.
Proof. split; [done|]. exists []. by rewrite app_nil_r. Qed.

Lemma quiet_trans (w1 w2 w3 : World FS) :
  quiet w1 w2 → quiet w2 w3 → quiet w1 w3.
Proof.
  intros [Hc (cs & Hcs & Hq)] [Hc' (cs' & Hcs' & Hq')]. split; [congruence|].
  exists (cs ++ cs'). split; [by rewrite Hcs', Hcs, app_assoc|].
  by apply Forall_app.
Qed.

Lemma quiet_logCall (c : Call) (w : World FS) :
  quietCall c → quiet w (logCall c w).
Proof. intros Hc. split; [done|]. exists [c]. split; [done|]. by constructor. Qed.

Lemma quiet_setFs (f : FS) (w : World FS) : quiet w (setFs f w).
Proof. split; [done|]. exists []. by rewrite app_nil_r. Qed.

Lemma Quiet_ret {A} (a : A) : Quiet (FS := FS) (ret a).
Proof. intros w r w' [= <- <-]. apply quiet_refl. Qed.

Lemma Quiet_bind {A B} (m : M FS A) (k : A → M FS B) :
  Quiet m → (∀ a, Quiet (k a)) → Quiet (bind m k).
Proof.
  intros Hm Hk w r w'' [(a & w' & H1 & H2)|(msg & H1 & _)]%bind_inv.
  - eapply quiet_trans; [by eapply Hm|by eapply Hk].
  - by eapply Hm.
Qed.


Lemma Quiet_throw {A} msg : Quiet (FS := FS) (A := A) (throw msg).
Proof. intros w r w' [= <- <-]. apply quiet_refl. Qed.

Context (host : Host FS).

Lemma Quiet_cp src dst : Quiet (cp host src dst).
Proof.
  intros w r w'. unfold cp.
  destruct (h_cp host _ src dst); intros [= <- <-].
  - apply (quiet_trans _ (logCall (Cp src dst) w));
      [apply quiet_logCall; exact I|apply quiet_setFs].
  - apply quiet_logCall; exact I.
Qed.

Lemma Quiet_exec cmd args cwd : Quiet (exec host cmd args cwd).
Proof.
  intros w r w'. unfold exec.
  destruct (h_exec host _ cmd args cwd); intros [= <- <-].
  - apply (quiet_trans _ (logCall (Exec cmd args cwd) w));
      [apply quiet_logCall; exact I|apply quiet_setFs].
  - apply quiet_logCall; exact I.
Qed.

Lemma Quiet_globby patterns cwd : Quiet (globby host patterns cwd).
Proof. intros w r w' [= <- <-]. apply quiet_logCall; exact I. Qed.

Lemma Quiet_stat file : Quiet (stat host file).
Proof. intros w r w' [= <- <-]. apply quiet_logCall; exact I. Qed.

Lemma Quiet_readFile file : Quiet (readFile host file).
Proof. intros w r w' [= <- <-]. apply quiet_logCall; exact I. Qed.

Lemma Quiet_getInput ctx name required :
  Quiet (getInput (FS := FS) ctx name required).
Proof.
  intros w r w'. unfold getInput.
  destruct (required && _); intros [= <- <-]; apply quiet_logCall; exact I.
Qed.

Lemma Quiet_getFileStats file branch branchStats :
  Quiet (getFileStats host file branch branchStats).
Proof.
  unfold getFileStats.
  apply Quiet_bind; [apply Quiet_stat|]. intros sz.
  apply Quiet_bind; [apply Quiet_readFile|]. intros c. apply Quiet_ret.
Qed.

Lemma Quiet_collect files branch branchStats :
  Quiet (collect host files branch branchStats).
Proof.
  revert branchStats. induction files as [|file rest IH]; intros branchStats.
  - apply Quiet_ret.
  - cbn [collect]. apply Quiet_bind; [apply Quiet_getFileStats|done].
Qed.

Lemma Quiet_runCommands commands cwd : Quiet (runCommands host commands cwd).
Proof.
  induction commands as [|cmd rest IH]; cbn [runCommands].
  - apply Quiet_ret.
  - destruct (commandOf cmd) as [cmdName cmdArgs].
    apply Quiet_bind; [apply Quiet_exec|done].
Qed.

Lemma Quiet_runScript script cwd : Quiet (runScript host script cwd).
Proof.
  unfold runScript. destruct (truthy script);
    [apply Quiet_runCommands|apply Quiet_ret].
Qed.

Lemma Quiet_getBranchStats branch dirGlob script :
  Quiet (getBranchStats host branch dirGlob script).
Proof.
  unfold getBranchStats.
  apply Quiet_bind; [apply Quiet_cp|intros _].
  apply Quiet_bind; [apply Quiet_exec|intros _].
  apply Quiet_bind; [apply Quiet_exec|intros _].
  apply Quiet_bind; [apply Quiet_runScript|intros _].
  apply Quiet_bind; [apply Quiet_globby|intros files].
  apply Quiet_collect.
Qed.

Lemma Quiet_measure ctx pull_request : Quiet (measure host ctx pull_request).
Proof.
  unfold measure.
  do 5 (apply Quiet_bind; [apply Quiet_getInput|intros ?]).
  do 2 (apply Quiet_bind; [apply Quiet_getBranchStats|intros ?]).
  apply Quiet_ret.
Qed.

End MonadFacts.

(** * Collection: keys and totals *)

Lemma sum_permutation (l k : list Z) :
  l ≡ₚ k → foldr Z.add 0 l = foldr Z.add 0 k.
Proof. induction 1; cbn [foldr]; lia. Qed.

Lemma sumOf_empty f : sumOf f ∅ = 0.
Proof. unfold sumOf, entries. by rewrite map_to_list_empty. Qed.

Lemma sumOf_insert f (o : gmap string FileMetric) k m :
  o !! k = None → sumOf f (<[k:=m]> o) = f m + sumOf f o.
Proof.
  intros Hk. unfold sumOf, entries.
  rewrite (sum_permutation _ ((λ entry, f entry.2) <$> ((k, m) :: map_to_list o))).
  - reflexivity.
  - apply fmap_Permutation. by apply map_to_list_insert.
Qed.

Lemma consistent_emptyStats : consistent emptyStats.
Proof. unfold consistent. cbn. by rewrite !sumOf_empty. Qed.

Lemma consistent_recordFile file branch m branchStats :
  files branchStats !! keyOf branch file = None →
  consistent branchStats → consistent (recordFile file branch m branchStats).
Proof.
  intros Hk (Hs & Hg & Hb). unfold consistent, recordFile. cbn.
  fold (keyOf branch file). rewrite !sumOf_insert by done. lia.
Qed.

Lemma keys_recordFile file branch m branchStats k :
  is_Some (files (recordFile file branch m branchStats) !! k) ↔
  k = keyOf branch file ∨ is_Some (files branchStats !! k).
Proof.
  unfold recordFile. cbn. fold (keyOf branch file).
  rewrite lookup_insert_is_Some. split.
  - intros [->|[_ ?]]; auto.
  - intros [->|?]; [by left|].
    destruct (decide (keyOf branch file = k)); [by left|by right].
Qed.

Section CollectFacts.

Context {FS : Type} (host : Host FS).

Lemma getFileStats_Ok file branch branchStats w branchStats' w' :
  getFileStats host file branch branchStats w = (Ok branchStats', w') →
  ∃ m, branchStats' = recordFile file branch m branchStats.
Proof.
  unfold getFileStats.
  intros (sz & w1 & _ & H)%bind_Ok_inv.
  apply bind_Ok_inv in H as (c & w2 & _ & H).
  injection H as <- _. eauto.
Qed.

(** When the files have keys that are pairwise distinct and new, the
    collection keeps the totals equal to the sums over the files. *)
Lemma collect_consistent fileList branch branchStats w branchStats' w' :
  collect host fileList branch branchStats w = (Ok branchStats', w') →
  NoDup (keyOf branch <$> fileList) →
  (∀ file, file ∈ fileList → files branchStats !! keyOf branch file = None) →
  consistent branchStats →
  consistent branchStats' ∧
  (∀ k, is_Some (files branchStats' !! k) ↔
        k ∈ keyOf branch <$> fileList ∨ is_Some (files branchStats !! k)).
Proof.
  revert branchStats w.
  induction fileList as [|file rest IH]; intros branchStats w Hc Hnd Hnew Hcons.
  - injection Hc as <- _. split; [done|]. intros k. rewrite fmap_nil.
    rewrite elem_of_nil. tauto.
  - cbn [collect] in Hc. apply bind_Ok_inv in Hc as (bs1 & w1 & H1 & Hc).
    apply getFileStats_Ok in H1 as [m ->].
    rewrite fmap_cons in Hnd. apply NoDup_cons in Hnd as [Hfresh Hnd].
    apply IH in Hc as [Hcons' Hkeys]; [| done | |].
    + split; [done|]. intros k. rewrite Hkeys, keys_recordFile, fmap_cons.
      rewrite elem_of_cons. tauto.
    + intros file' Hin.
      destruct (files (recordFile file branch m branchStats)
                  !! keyOf branch file') as [x|] eqn:Hx; [|done].
      exfalso. assert (is_Some (files (recordFile file branch m branchStats)
                  !! keyOf branch file')) as Hs by eauto.
      apply keys_recordFile in Hs as [Heq|[y Hy]].
      * apply Hfresh. rewrite <- Heq. by apply list_elem_of_fmap_2.
      * rewrite Hnew in Hy; [done|by right].
    + apply consistent_recordFile; [|done]. apply Hnew. by left.
Qed.

End CollectFacts.

(** The totals of a branch are the sums over its files when the files that
    [globby] returned have keys that are pairwise distinct. *)
Lemma getBranchStats_consistent {FS : Type} (host : Host FS)
    branch dirGlob script w branchStats w' :
  getBranchStats host branch dirGlob script w = (Ok branchStats, w') →
  ∃ w0 w1 fileList,
    globby host (JS.split "," dirGlob) ("../.filediff/" +:+ branch) w0
    = (Ok fileList, w1) ∧
    collect host fileList branch emptyStats w1 = (Ok branchStats, w') ∧
    (NoDup (keyOf branch <$> fileList) →
     consistent branchStats ∧
     ∀ k, is_Some (files branchStats !! k) ↔ k ∈ keyOf branch <$> fileList).
Proof.
  unfold getBranchStats.
  intros (? & w1 & _ & H)%bind_Ok_inv.
  apply bind_Ok_inv in H as (? & w2 & _ & H).
  apply bind_Ok_inv in H as (? & w3 & _ & H).
  apply bind_Ok_inv in H as (? & w4 & _ & H).
  apply bind_Ok_inv in H as (fileList & w5 & Hglobby & H).
  exists w4, w5, fileList. split; [done|]. split; [done|]. intros Hnd.
  apply collect_consistent in H as [Hcons Hkeys];
    [|done|done|apply consistent_emptyStats].
  split; [done|]. intros k. rewrite Hkeys. cbn. rewrite lookup_empty.
  split; [intros [?|[? ?]]; done|auto].
Qed.

(** C4.  Where the name of the branch occurs again in the absolute path of
    a file, [getFileStats] keeps only what lies between the first two
    occurrences: below [.filediff/main], the file [src/main/a.js] gets the
    key [src/], while below [.filediff/feature] the same file gets the key
    [src/main/a.js]; and for a branch named [work] every file below
    [/home/runner/work] gets the key [repo/.filediff/]. *)
Theorem key_cut_at_second_branch_name :
  filePathOf "/home/runner/work/repo/.filediff/main/src/main/a.js" "main"
  = Some "src/" ∧
  filePathOf "/home/runner/work/repo/.filediff/feature/src/main/a.js" "feature"
  = Some "src/main/a.js" ∧
  keyOf "main" "/home/runner/work/repo/.filediff/main/src/main/a.js"
  ≠ keyOf "feature" "/home/runner/work/repo/.filediff/feature/src/main/a.js" ∧
  filePathOf "/home/runner/work/repo/.filediff/work/dist/a.js" "work"
  = Some "repo/.filediff/".
Proof. repeat split; try reflexivity. by vm_compute. Qed.

(** C5.  Two files of the branch [main] that lie below a directory named
    [main] get the one key [src/]: the total counts the 10 and the 20 bytes
    of both, the [files] object keeps the second file only. *)
Theorem totals_exceed_sums_on_equal_keys :
  ∃ branchStats w',
    getBranchStats (sampleHost []) "main" "src/**" None
      (sampleWorld nestedFiles []) = (Ok branchStats, w') ∧
    keys (files branchStats) = ["src/"] ∧
    totalSize branchStats = 30 ∧
    sumOf size (files branchStats) = 20.
Proof. do 2 eexists. split; [vm_compute; reflexivity|]. by vm_compute. Qed.

(** * The build runner *)

Section BuildFacts.

Context {FS : Type} (host : Host FS).

Lemma runsSteps_prefix cwd f steps cs r f' :
  runsSteps host cwd f steps cs r f' →
  ∃ k, (k ≤ length steps)%nat ∧ cs = stepCall cwd <$> take k steps.
Proof.
  induction 1 as [f|f f' step rest cs r f'' Hok Hrest (k & Hk & ->)
                 |f step rest msg Hfail].
  - exists 0%nat. by split.
  - exists (S k). split; [cbn; lia|done].
  - exists 1%nat. split; [cbn; lia|done].
Qed.

Lemma runsSteps_Ok cwd f steps cs f' :
  runsSteps host cwd f steps cs (Ok tt) f' → cs = stepCall cwd <$> steps.
Proof.
  remember (Ok tt) as r eqn:Hr.
  induction 1 as [f|f f' step rest cs r f'' Hok Hrest IH
                 |f step rest msg Hfail]; [done| |done].
  rewrite fmap_cons. f_equal. by apply IH.
Qed.

Lemma runsSteps_Throw cwd f steps cs msg f' :
  runsSteps host cwd f steps cs (Throw msg) f' →
  ∃ before step rest,
    steps = before ++ step :: rest ∧
    cs = stepCall cwd <$> (before ++ [step]) ∧
    h_exec host f' step.1 step.2 cwd = Throw msg.
Proof.
  remember (Throw msg) as r eqn:Hr.
  induction 1 as [f|f f' step rest cs r f'' Hok Hrest IH
                 |f step rest msg' Hfail]; [done| |].
  - destruct (IH Hr) as (before & step' & rest' & -> & -> & Hf).
    by exists (step :: before), step', rest'.
  - injection Hr as ->. by exists [], step, rest.
Qed.

Lemma runCommands_runsSteps commands cwd w r w' :
  runCommands host commands cwd w = (r, w') →
  ∃ cs,
    runsSteps host cwd (fs w) (commandOf <$> commands) cs r (fs w') ∧
    calls w' = calls w ++ cs ∧ comments w' = comments w.
Proof.
  revert w. induction commands as [|cmd rest IH]; intros w; cbn [runCommands].
  - intros [= <- <-]. exists []. rewrite app_nil_r. repeat split. constructor.
  - destruct (commandOf cmd) as [cmdName cmdArgs] eqn:Hcmd.
    unfold bind, exec.
    destruct (h_exec host (fs (logCall (Exec cmdName cmdArgs cwd) w))
                cmdName cmdArgs cwd) as [f1|msg] eqn:Hexec.
    + intros (cs & Hsteps & Hcalls & Hcomments)%IH.
      exists (Exec cmdName cmdArgs cwd :: cs). split; [|split].
      * rewrite fmap_cons, Hcmd.
        by apply (runs_next host cwd (fs w) f1 (cmdName, cmdArgs)).
      * rewrite Hcalls. cbn. by rewrite <- app_assoc.
      * by rewrite Hcomments.
    + intros [= <- <-]. exists [Exec cmdName cmdArgs cwd].
      split; [|done]. rewrite fmap_cons, Hcmd.
      by apply (runs_abort host cwd (fs w) (cmdName, cmdArgs)).
Qed.

End BuildFacts.

Lemma splitSpaces_go_nonempty inRun acc s : JS.splitSpaces_go inRun acc s ≠ [].
Proof.
  revert inRun acc. induction s as [|c s IH]; intros inRun acc; [done|].
  cbn [JS.splitSpaces_go]. destruct (JS.is_space c); [|apply IH].
  destruct inRun; [apply IH|done].
Qed.

Lemma commandOf_tokens cmd :
  (commandOf cmd).1 :: (commandOf cmd).2 = JS.splitSpaces cmd.
Proof.
  unfold commandOf, JS.splitSpaces. cbn [fst snd].
  pose proof (splitSpaces_go_nonempty false "" cmd) as Hne.
  by destruct (JS.splitSpaces_go false "" cmd).
Qed.

(** C6.  Without a script, or with the empty one, nothing is executed.
    Otherwise the script is split at [&&] (joining the pieces with [&&]
    gives it back), each piece is trimmed (white space, and nothing else,
    is removed from both ends) and cut at white space into a name and
    arguments (none of which holds white space), and the commands are
    executed in the working directory in that order up to the first one
    that fails, which ends the run of the script with its error. *)
Theorem build_runner_sequence {FS : Type} (host : Host FS) (cwd : string) :
  (∀ w, runScript host None cwd w = (Ok tt, w)) ∧
  (∀ w, runScript host (Some "") cwd w = (Ok tt, w)) ∧
  (∀ script, JS.join "&&" (JS.split "&&" script) = script) ∧
  (∀ segment,
     ∃ l r, segment = l +:+ JS.trim segment +:+ r ∧ allSpace l ∧ allSpace r ∧
            (∀ c t, JS.trim segment = String c t → JS.is_space c = false) ∧
            (∀ t c, JS.trim segment = t +:+ String c "" →
                    JS.is_space c = false)) ∧
  (∀ cmd,
     (commandOf cmd).1 :: (commandOf cmd).2 = JS.splitSpaces cmd ∧
     ∀ t, t ∈ JS.splitSpaces cmd → noSpace t) ∧
  (∀ script w,
     script ≠ "" →
     let steps := commandOf <$> (JS.trim <$> JS.split "&&" script) in
     ∃ cs r w',
       runScript host (Some script) cwd w = (r, w') ∧
       runsSteps host cwd (fs w) steps cs r (fs w') ∧
       calls w' = calls w ++ cs ∧
       comments w' = comments w ∧
       (∃ k, (k ≤ length steps)%nat ∧ cs = stepCall cwd <$> take k steps) ∧
       (r = Ok tt → cs = stepCall cwd <$> steps) ∧
       (∀ msg, r = Throw msg →
          ∃ before step rest,
            steps = before ++ step :: rest ∧
            cs = stepCall cwd <$> (before ++ [step]) ∧
            h_exec host (fs w') step.1 step.2 cwd = Throw msg)).
Proof.
  split; [done|]. split; [done|].
  split; [intros script; by apply join_split|].
  split; [apply trim_spec|].
  split.
  { intros cmd. split; [apply commandOf_tokens|apply splitSpaces_noSpace]. }
  intros script w Hne steps.
  destruct (runScript host (Some script) cwd w) as [r w'] eqn:Hrun.
  assert (Hcmds : runCommands host (commandsOf script) cwd w = (r, w')).
  { unfold runScript in Hrun. by destruct script. }
  apply runCommands_runsSteps in Hcmds as (cs & Hsteps & Hcalls & Hcomments).
  fold steps in Hsteps. exists cs, r, w'.
  split; [done|]. split; [done|]. split; [done|]. split; [done|].
  split; [by eapply runsSteps_prefix|]. split.
  - intros ->. by eapply runsSteps_Ok.
  - intros msg ->. by eapply runsSteps_Throw.
Qed.

Lemma build_runner_sequence_witness :
  let cwd := "../.filediff/main" in
  let w := sampleWorld [] [] in
  let out :=
    runScript (sampleHost ["false"]) (Some "npm ci && false && npm run build")
      cwd w in
  out.1 = Throw "The process 'false' failed with exit code 1" ∧
  calls out.2 = [Exec "npm" ["ci"] cwd; Exec "false" [] cwd].
Proof.
  intros cwd w out.
  destruct (build_runner_sequence (sampleHost ["false"]) cwd)
    as (_ & _ & _ & _ & _ & H).
  destruct (H "npm ci && false && npm run build" w ltac:(discriminate))
    as (cs & r & w' & Hrun & _ & _ & _ & _ & _ & Hthrow).
  subst out. rewrite Hrun. vm_compute in Hrun. injection Hrun as <- <-.
  split; reflexivity.
Defined.

(** * The orchestrator *)

Lemma filter_all {A} (P : A → Prop) `{!∀ x, Decision (P x)} (l : list A) :
  (∀ x, x ∈ l → P x) → filter P l = l.
Proof.
  induction l as [|x l IH]; intros Hall; [done|].
  rewrite filter_cons_True by (apply Hall; left). f_equal. apply IH.
  intros y Hy. apply Hall. by right.
Qed.

Section RunFacts.

Context {FS : Type} (host : Host FS).

(** [run] is the test of the credential and of the payload, then
    [measure], then the comparison of the totals, then [publish]. *)
Lemma runTry_parts ctx w :
  runTry host ctx w =
  if negb (truthy (GITHUB_TOKEN ctx))
  then (Throw "Missing required environment variables: GITHUB_TOKEN", w)
  else
    match repository (payload ctx), pull_request (payload ctx) with
    | Some repository, Some pull_request =>
        match measure host ctx pull_request w with
        | (Ok (fileDetailsOpen, replaceComment, targetStats, prStats), w') =>
            if decide (totalSize targetStats = totalSize prStats)
            then (Ok tt, w')
            else publish host repository pull_request fileDetailsOpen
                   replaceComment targetStats prStats w'
        | (Throw msg, w') => (Throw msg, w')
        end
    | _, _ => (Ok tt, w)
    end.
Proof.
  unfold runTry, measure.
  destruct (negb (truthy (GITHUB_TOKEN ctx))); [done|].
  destruct (repository (payload ctx)) as [repository|]; [|done].
  destruct (pull_request (payload ctx)) as [pull_request|]; [|done].
  unfold bind, ret.
  destruct (getInput ctx "target_branch" true w) as [[targetBranch|?] w1];
    [|done].
  destruct (getInput ctx "dir_glob" true w1) as [[dirGlob|?] w2]; [|done].
  destruct (getInput ctx "pre_diff_script" false w2) as [[script|?] w3];
    [|done].
  destruct (getInput ctx "file_details_open" false w3)
    as [[fileDetailsOpen|?] w4]; [|done].
  destruct (getInput ctx "replace_comment" false w4)
    as [[replaceComment|?] w5]; [|done].
  destruct (getBranchStats host targetBranch dirGlob (Some script) w5)
    as [[targetStats|?] w6]; [|done].
  destruct (getBranchStats host (head_ref pull_request) dirGlob
              (Some script) w6) as [[prStats|?] w7]; [|done].
  destruct (decide (totalSize targetStats = totalSize prStats)); [done|].
  unfold publish, bind, ret.
  by destruct (decide (replaceComment = "true")).
Qed.

Lemma measure_inputs ctx pull_request w fileDetailsOpen replaceComment
    targetStats prStats w' :
  measure host ctx pull_request w
  = (Ok (fileDetailsOpen, replaceComment, targetStats, prStats), w') →
  fileDetailsOpen
  = JS.trim (default "" (inputEnv ctx "file_details_open")) ∧
  replaceComment = JS.trim (default "" (inputEnv ctx "replace_comment")).
Proof.
  unfold measure.
  intros (? & w1 & _ & H)%bind_Ok_inv.
  apply bind_Ok_inv in H as (? & w2 & _ & H).
  apply bind_Ok_inv in H as (? & w3 & _ & H).
  apply bind_Ok_inv in H as (fdo & w4 & H4 & H).
  apply bind_Ok_inv in H as (rc & w5 & H5 & H).
  apply bind_Ok_inv in H as (? & w6 & _ & H).
  apply bind_Ok_inv in H as (? & w7 & _ & H).
  injection H as <- <- _ _ _.
  unfold getInput in H4, H5. cbn [andb] in H4, H5.
  by injection H4 as <- _; injection H5 as <- _.
Qed.

(** ** The comments *)

Lemma api_Ok {A} c (perform : World FS → A * World FS) w a w' :
  api host c perform w = (Ok a, w') →
  h_apiError host (calls w) c = None ∧ perform (logCall c w) = (a, w').
Proof.
  unfold api. destruct (h_apiError host (calls w) c); [done|].
  destruct (perform (logCall c w)) as [a' w'']. by intros [= <- <-].
Qed.

Lemma deleteExisting_Ok owner repo data n w n' w' :
  deleteExisting host owner repo data n w = (Ok n', w') →
  let ids := Comment.id <$> filter (λ c, marked c = true) data in
  fs w' = fs w ∧
  comments w' = filter (λ c, Comment.id c ∉ ids) (comments w) ∧
  calls w' = calls w ++ (DeleteComment owner repo <$> ids) ∧
  n' = n + Z.of_nat (length ids).
Proof.
  revert n w. induction data as [|comment rest IH]; intros n w; cbn zeta.
  - intros [= <- <-]. rewrite filter_nil, fmap_nil, app_nil_r. cbn.
    repeat split; [|lia].
    symmetry. apply filter_all. intros c _. apply not_elem_of_nil.
  - cbn [deleteExisting]. rewrite filter_cons.
    destruct (decide (marked comment = true)) as [Hm|Hm]; unfold marked in Hm;
      destruct (Comment.body comment) as [body|]; try done;
      try (destruct (JS.startsWith body commentHash); try done);
      try apply IH.
    intros (? & w1 & Hdel & Hrest)%bind_Ok_inv.
    apply api_Ok in Hdel as [_ [= _ <-]].
    apply IH in Hrest as (Hfs & Hcomments & Hcalls & Hn).
    cbn in Hfs, Hcomments, Hcalls.
    rewrite fmap_cons. cbn [length]. repeat split; [done| | |lia].
    + rewrite Hcomments, list_filter_filter. apply list_filter_iff.
      intros c. rewrite not_elem_of_cons. tauto.
    + rewrite Hcalls. cbn. by rewrite <- app_assoc.
Qed.

Lemma publish_Ok repository pull_request fileDetailsOpen replaceComment
    targetStats prStats w w' :
  publish host repository pull_request fileDetailsOpen replaceComment
    targetStats prStats w = (Ok tt, w') →
  let owner := owner_login repository in
  let repo := name repository in
  let issue := number pull_request in
  let body :=
    getStatComment (h_prettyBytes host) targetStats prStats
      (bool_decide (fileDetailsOpen = "true")) in
  let ids := Comment.id <$> filter (λ c, marked c = true) (comments w) in
  let kept :=
    if decide (replaceComment = "true")
    then filter (λ c, Comment.id c ∉ ids) (comments w)
    else comments w in
  comments w'
  = kept ++ [{| Comment.id := h_newCommentId host kept;
                Comment.body := Some body |}] ∧
  calls w'
  = calls w
    ++ (if decide (replaceComment = "true")
        then ListComments owner repo issue :: (DeleteComment owner repo <$> ids)
        else [])
    ++ [CreateComment owner repo issue body].
Proof.
  unfold publish. intros (? & w1 & Hreplace & Hcreate)%bind_Ok_inv. cbn zeta.
  apply api_Ok in Hcreate as [_ [= <-]]. cbn [comments calls setComments logCall].
  destruct (decide (replaceComment = "true")) as [_|_].
  - apply bind_Ok_inv in Hreplace as (data & w2 & Hlist & Hreplace).
    apply api_Ok in Hlist as [_ [= <- <-]].
    apply bind_Ok_inv in Hreplace as (n & w3 & Hdel & Hret).
    unfold ret in Hret. simplify_eq.
    apply deleteExisting_Ok in Hdel as (_ & Hc & Hcalls & _).
    rewrite Hc, Hcalls.
    cbn [comments calls logCall]. split; [done|].
    by rewrite <- !app_assoc.
  - unfold ret in Hreplace. simplify_eq. by rewrite app_nil_l.
Qed.

End RunFacts.

Lemma filter_iff_in {A} (P Q : A → Prop) `{!∀ x, Decision (P x)}
    `{!∀ x, Decision (Q x)} (l : list A) :
  (∀ x, x ∈ l → P x ↔ Q x) → filter P l = filter Q l.
Proof.
  induction l as [|x l IH]; intros Hall; [done|].
  rewrite !filter_cons. rewrite IH by (intros y Hy; apply Hall; by right).
  destruct (decide (P x)) as [HP|HP], (decide (Q x)) as [HQ|HQ]; try done.
  - exfalso. apply HQ, (Hall x); [left|done].
  - exfalso. apply HP, (Hall x); [left|done].
Qed.

Lemma NoDup_fmap_elem_inj {A B} (f : A → B) (l : list A) x y :
  NoDup (f <$> l) → x ∈ l → y ∈ l → f x = f y → x = y.
Proof.
  induction l as [|z l IH]; intros Hnd Hx Hy Hf; [by apply elem_of_nil in Hx|].
  rewrite fmap_cons in Hnd. apply NoDup_cons in Hnd as [Hz Hnd].
  apply elem_of_cons in Hx as [->|Hx]; apply elem_of_cons in Hy as [->|Hy].
  - done.
  - exfalso. apply Hz. rewrite Hf. by apply list_elem_of_fmap_2.
  - exfalso. apply Hz. rewrite <- Hf. by apply list_elem_of_fmap_2.
  - by apply IH.
Qed.

Lemma kept_unmarked (cs : list Comment.t) c :
  c ∈ filter (λ c, Comment.id c
                   ∉ Comment.id <$> filter (λ c, marked c = true) cs) cs →
  marked c = false.
Proof.
  intros [Hid Hin]%list_elem_of_filter.
  destruct (marked c) eqn:Hm; [|done]. exfalso. apply Hid.
  apply list_elem_of_fmap_2. by apply list_elem_of_filter.
Qed.

Lemma kept_all_unmarked (cs : list Comment.t) :
  NoDup (Comment.id <$> cs) →
  filter (λ c, Comment.id c ∉ Comment.id <$> filter (λ c, marked c = true) cs) cs
  = filter (λ c, marked c = false) cs.
Proof.
  intros Hnd. apply filter_iff_in. intros c Hc. split.
  - intros Hid. apply (kept_unmarked cs). by apply list_elem_of_filter.
  - intros Hm Hid.
    apply list_elem_of_fmap in Hid as (c' & Heq & [Hm' Hc']%list_elem_of_filter).
    assert (c = c') as <- by by apply (NoDup_fmap_elem_inj Comment.id cs).
    congruence.
Qed.

(** C2.  A run that has measured both branches and found the two
    [totalSize] equal ends there: it completes without a failure, leaves
    the comments of the pull request as they were and makes no call about
    comments.  Nothing is asked of the other totals or of the files. *)
Theorem equal_totals_no_report {FS : Type} (host : Host FS) (ctx : Context)
    (repo0 : Repository) (pr0 : PullRequest) (w w' : World FS)
    (fileDetailsOpen replaceComment : string)
    (targetStats prStats : BranchStats) :
  truthy (GITHUB_TOKEN ctx) = true →
  repository (payload ctx) = Some repo0 →
  pull_request (payload ctx) = Some pr0 →
  measure host ctx pr0 w
  = (Ok (fileDetailsOpen, replaceComment, targetStats, prStats), w') →
  totalSize targetStats = totalSize prStats →
  run host ctx w = w' ∧
  comments w' = comments w ∧
  ∃ cs, calls w' = calls w ++ cs ∧ Forall quietCall cs.
Proof.
  intros Htoken Hrepo Hpr Hmeasure Heq. split.
  - unfold run. rewrite runTry_parts, Htoken, Hrepo, Hpr, Hmeasure.
    cbn [negb]. by rewrite decide_True.
  - exact (Quiet_measure host ctx pr0 w _ w' Hmeasure).
Qed.

Lemma equal_totals_no_report_witness :
  let w := sampleWorld swappedFiles sampleComments in
  comments (run (sampleHost []) (sampleContext sampleInputs) w) = sampleComments.
Proof.
  intros w.
  assert (∃ fdo rc t p w',
            measure (sampleHost []) (sampleContext sampleInputs)
              {| head_ref := "feature"; number := 7 |} w
            = (Ok (fdo, rc, t, p), w') ∧ totalSize t = totalSize p)
    as (fdo & rc & t & p & w' & Hm & Heq)
    by (vm_compute; do 5 eexists; split; reflexivity).
  destruct (equal_totals_no_report (sampleHost []) (sampleContext sampleInputs)
              {| owner_login := "shopify"; name := "repo" |}
              {| head_ref := "feature"; number := 7 |} w w' fdo rc t p
              eq_refl eq_refl eq_refl Hm Heq) as (-> & -> & _).
  reflexivity.
Defined.

(** C10 as amended.  With the credential present, a payload without a
    repository or without a pull request ends the run at once: the world is
    unchanged, so no input is read, no workspace is made, nothing is
    measured, no call about comments is made and no failure is reported. *)
Theorem no_pull_request_no_work {FS : Type} (host : Host FS) (ctx : Context)
    (w : World FS) :
  truthy (GITHUB_TOKEN ctx) = true →
  repository (payload ctx) = None ∨ pull_request (payload ctx) = None →
  run host ctx w = w.
Proof.
  intros Htoken Hpayload. unfold run. rewrite runTry_parts, Htoken. cbn [negb].
  destruct Hpayload as [-> | ->]; [done|].
  by destruct (repository (payload ctx)).
Qed.

Lemma no_pull_request_no_work_witness :
  let ctx :=
    {| GITHUB_TOKEN := Some "token";
       payload := {| repository := None; pull_request := None |};
       workflowInputs := sampleInputs |} in
  run (sampleHost []) ctx (sampleWorld changedFiles sampleComments)
  = sampleWorld changedFiles sampleComments.
Proof.
  intros ctx.
  apply (no_pull_request_no_work (sampleHost []) ctx); [reflexivity|by left].
Defined.

(** Without the credential, the same payload makes the run fail. *)
Lemma missing_credential_fails_first :
  let ctx :=
    {| GITHUB_TOKEN := None;
       payload := {| repository := None; pull_request := None |};
       workflowInputs := sampleInputs |} in
  calls (run (sampleHost []) ctx (sampleWorld changedFiles sampleComments))
  = [SetFailed "Missing required environment variables: GITHUB_TOKEN"].
Proof. reflexivity. Qed.

(** C9.  When the totals differ and the report is published, the value of
    [replace_comment] decides: with "true", which is also what an absent
    input gives, the comments are listed, every comment whose body starts
    with the marker is deleted, and only then the new comment is created;
    with any other value no comment is listed or deleted and the new one is
    added to those that exist. *)
Theorem replace_comment_modes {FS : Type} (host : Host FS) (ctx : Context)
    (repo0 : Repository) (pr0 : PullRequest) (w w1 w2 : World FS)
    (fileDetailsOpen replaceComment : string)
    (targetStats prStats : BranchStats) :
  truthy (GITHUB_TOKEN ctx) = true →
  repository (payload ctx) = Some repo0 →
  pull_request (payload ctx) = Some pr0 →
  measure host ctx pr0 w
  = (Ok (fileDetailsOpen, replaceComment, targetStats, prStats), w1) →
  totalSize targetStats ≠ totalSize prStats →
  runTry host ctx w = (Ok tt, w2) →
  let owner := owner_login repo0 in
  let repo := name repo0 in
  let issue := number pr0 in
  let body :=
    getStatComment (h_prettyBytes host) targetStats prStats
      (bool_decide (fileDetailsOpen = "true")) in
  let created := λ existing,
    {| Comment.id := h_newCommentId host existing;
       Comment.body := Some body |} in
  let ids := Comment.id <$> filter (λ c, marked c = true) (comments w) in
  let kept := filter (λ c, Comment.id c ∉ ids) (comments w) in
  run host ctx w = w2 ∧
  (workflowInputs ctx !! "replace_comment" = None → replaceComment = "true") ∧
  (replaceComment = "true" →
     comments w2 = kept ++ [created kept] ∧
     (∀ c, c ∈ kept → marked c = false) ∧
     (NoDup (Comment.id <$> comments w) →
      kept = filter (λ c, marked c = false) (comments w)) ∧
     calls w2
     = calls w1 ++ ListComments owner repo issue
         :: (DeleteComment owner repo <$> ids)
         ++ [CreateComment owner repo issue body]) ∧
  (replaceComment ≠ "true" →
     comments w2 = comments w ++ [created (comments w)] ∧
     length (comments w2) = S (length (comments w)) ∧
     calls w2 = calls w1 ++ [CreateComment owner repo issue body]).
Proof.
  intros Htoken Hrepo Hpr Hmeasure Hne Hrun owner repo issue body created ids
    kept.
  pose proof (Quiet_measure host ctx pr0 w _ w1 Hmeasure) as [Hcomments _].
  pose proof Hrun as Hpub.
  rewrite runTry_parts, Htoken, Hrepo, Hpr, Hmeasure in Hpub. cbn [negb] in Hpub.
  rewrite decide_False in Hpub by done.
  apply publish_Ok in Hpub as [Hc Hcalls]. rewrite Hcomments in Hc.
  split; [unfold run; by rewrite Hrun|]. split; [|split].
  - intros Hnone. apply measure_inputs in Hmeasure as [_ ->].
    unfold inputEnv. rewrite lookup_union_r by done. reflexivity.
  - intros Htrue. rewrite decide_True in Hc by done.
    rewrite decide_True in Hcalls by done.
    split; [done|]. split; [apply kept_unmarked|].
    split; [apply kept_all_unmarked|]. by rewrite Hcomments in Hcalls.
  - intros Hfalse. rewrite decide_False in Hc by done.
    rewrite decide_False in Hcalls by done.
    split; [done|]. split; [|done].
    rewrite Hc, length_app. cbn. lia.
Qed.

Lemma replace_comment_modes_witness :
  let w := sampleWorld changedFiles sampleComments in
  Comment.id <$> comments (run (sampleHost []) (sampleContext sampleInputs) w)
  = [1; 3; 4].
Proof.
  intros w.
  assert (∃ fdo rc t p w1 w2,
            measure (sampleHost []) (sampleContext sampleInputs)
              {| head_ref := "feature"; number := 7 |} w
            = (Ok (fdo, rc, t, p), w1) ∧ totalSize t ≠ totalSize p ∧
            runTry (sampleHost []) (sampleContext sampleInputs) w = (Ok tt, w2))
    as (fdo & rc & t & p & w1 & w2 & Hm & Hne & Hrun)
    by (vm_compute; do 6 eexists; split; [reflexivity|]; split; [|reflexivity];
        discriminate).
  destruct (replace_comment_modes (sampleHost []) (sampleContext sampleInputs)
              {| owner_login := "shopify"; name := "repo" |}
              {| head_ref := "feature"; number := 7 |} w w1 w2 fdo rc t p
              eq_refl eq_refl eq_refl Hm Hne Hrun)
    as (-> & Hdefault & Htrue & _).
  destruct (Htrue (Hdefault eq_refl)) as (-> & _).
  rewrite fmap_app. reflexivity.
Defined.
(** * More about splitting *)

Lemma includes_occursIn s sep : includes s sep = true ↔ occursIn sep s.
Proof.
  induction s as [|c s IH]; cbn [includes].
  - rewrite prefix_prefixOf. split.
    + intros [t Ht]. by exists "", t.
    + intros (a & b & Hab). destruct a; [|done].
      rewrite string_app_nil_l in Hab. by exists b.
  - rewrite orb_true_iff, IH, prefix_prefixOf. split.
    + intros [[t Ht]|(a & b & ->)].
      * by exists "", t.
      * by exists (String c a), b.
    + intros (a & b & Hab). destruct a as [|x a].
      * left. rewrite string_app_nil_l in Hab. by exists b.
      * right. rewrite string_app_cons in Hab. injection Hab as _ ->.
        by exists a, b.
Qed.

Lemma includes_false s sep : includes s sep = false ↔ ¬ occursIn sep s.
Proof. rewrite <- includes_occursIn. by destruct (includes s sep). Qed.

Lemma rev_length s : String.length (String.rev s) = String.length s.
Proof.
  induction s as [|c s IH]; [done|].
  rewrite rev_cons, string_length_app, IH. cbn. lia.
Qed.

Lemma app_eq_length a a' x y :
  a +:+ x = a' +:+ y → String.length a = String.length a' → a = a' ∧ x = y.
Proof.
  revert a'. induction a as [|c a IH]; intros [|c' a'] Heq Hlen;
    try (cbn in Hlen; lia).
  - by rewrite !string_app_nil_l in Heq.
  - rewrite !string_app_cons in Heq. injection Heq as -> Heq.
    cbn in Hlen. destruct (IH a' Heq) as [-> ->]; [lia|done].
Qed.

(** No piece of a split holds the separator. *)
Lemma split_go_pieces sep n : ∀ s acc t,
  sep ≠ "" → (String.length s ≤ n)%nat →
  ¬ occursBefore sep (String.length acc) (String.rev acc +:+ s) →
  t ∈ JS.split_go sep 0 acc s → ¬ occursIn sep t.
Proof.
  induction n as [|n IH]; intros s acc t Hsep Hlen Hinv Ht.
  - destruct s; [|cbn in Hlen; lia]. cbn in Ht.
    apply list_elem_of_singleton in Ht as ->. intros (a & b & Hab).
    apply Hinv. exists a, b. rewrite string_app_nil_r. split; [done|].
    apply (f_equal String.length) in Hab.
    rewrite rev_length, !string_length_app in Hab.
    destruct sep; [done|]. cbn in Hab. lia.
  - destruct s as [|c s].
    { cbn in Ht. apply list_elem_of_singleton in Ht as ->. intros (a & b & Hab).
      apply Hinv. exists a, b. rewrite string_app_nil_r. split; [done|].
      apply (f_equal String.length) in Hab.
      rewrite rev_length, !string_length_app in Hab.
      destruct sep; [done|]. cbn in Hab. lia. }
    cbn [JS.split_go] in Ht. cbn [String.length] in Hlen.
    destruct (String.prefix sep (String c s)) eqn:Hp.
    + apply prefix_prefixOf in Hp as [u Hu].
      destruct sep as [|c' v]; [done|].
      rewrite string_app_cons in Hu. injection Hu as <- ->.
      cbn [String.length] in Ht.
      rewrite Nat.sub_succ, Nat.sub_0_r, split_go_skip in Ht.
      apply elem_of_cons in Ht as [->|Ht].
      * intros (a & b & Hab). apply Hinv. exists a, (b +:+ String c (v +:+ u)).
        split; [by rewrite Hab, !string_app_assoc|].
        apply (f_equal String.length) in Hab.
        rewrite rev_length, !string_length_app in Hab. cbn in Hab. lia.
      * apply (IH u "" t); [done| | |done].
        -- rewrite string_length_app in Hlen. lia.
        -- intros (a & b & _ & Ha). cbn in Ha. lia.
    + apply (IH s (String c acc) t); [done|lia| |done].
      rewrite rev_cons_app. intros (a & b & Hab & Ha). cbn [String.length] in Ha.
      destruct (decide (String.length a < String.length acc)%nat) as [Hlt|Hge].
      * apply Hinv. by exists a, b.
      * assert (String.length a = String.length (String.rev acc)) as Hl
          by (rewrite rev_length; lia).
        symmetry in Hab. destruct (app_eq_length _ _ _ _ Hab Hl) as [_ Hs].
        assert (String.prefix sep (String c s) = true) as Ht'.
        { apply prefix_prefixOf. exists b. by rewrite <- Hs. }
        congruence.
Qed.

Lemma split_pieces sep s t :
  sep ≠ "" → t ∈ JS.split sep s → ¬ occursIn sep t.
Proof.
  intros Hsep. apply (split_go_pieces sep (String.length s)); [done..|].
  intros (a & b & _ & Ha). cbn in Ha. lia.
Qed.

Lemma split_single sep s :
  sep ≠ "" → (¬ occursIn sep s ↔ JS.split sep s = [s]).
Proof.
  intros Hsep. split.
  - intros Hno. unfold JS.split. by rewrite split_go_none.
  - intros Heq. apply (split_pieces sep s); [done|]. rewrite Heq. by left.
Qed.

Lemma join_cons_cons sep x (l : list string) :
  JS.join sep (x :: l)
  = x +:+ match l with [] => "" | _ => sep +:+ JS.join sep l end.
Proof. unfold JS.join. destruct l; [by rewrite string_app_nil_r|done]. Qed.

(** X1.  The key that [getFileStats] gives to a file.  When the name of the
    branch followed by [/] does not occur in the path, the key is the string
    [undefined].  Otherwise the path is cut at the occurrences of that
    separator, the key is the second piece, it holds no separator, and the
    path is the first piece, the separator, the key, and whatever follows
    the next separator. *)
Theorem key_between_first_two_occurrences (file branch : string) :
  let sep := branch +:+ "/" in
  (includes file sep = false ↔ filePathOf file branch = None) ∧
  (filePathOf file branch = None → keyOf branch file = "undefined") ∧
  (∀ key,
     filePathOf file branch = Some key →
     keyOf branch file = key ∧
     ∃ root more,
       JS.split sep file = root :: key :: more ∧
       file = root +:+ sep +:+ key
              +:+ match more with [] => "" | _ => sep +:+ JS.join sep more end ∧
       includes root sep = false ∧
       includes key sep = false).
Proof.
  intros sep.
  assert (Hsep : sep ≠ "") by (unfold sep; by destruct branch).
  split; [|split].
  - rewrite includes_false, (split_single sep file Hsep). unfold filePathOf.
    fold sep. split; [intros Heq; rewrite Heq; reflexivity|].
    pose proof (join_split sep file Hsep) as Hjoin.
    pose proof (split_go_nonempty sep 0 "" file) as Hne. fold (JS.split sep file) in Hne.
    destruct (JS.split sep file) as [|root [|key more]] eqn:Hs; [done| |done].
    intros _. cbn in Hjoin. by rewrite Hjoin.
  - unfold keyOf. by intros ->.
  - intros key Hkey. split; [unfold keyOf; by rewrite Hkey|].
    unfold filePathOf in Hkey. fold sep in Hkey.
    pose proof (join_split sep file Hsep) as Hjoin.
    pose proof (split_pieces sep file) as Hpieces.
    destruct (JS.split sep file) as [|root [|key' more]] eqn:Hs; [done..|].
    cbn in Hkey. injection Hkey as ->.
    exists root, more. split; [done|]. split.
    + rewrite <- Hjoin at 1. rewrite join_cons_cons. f_equal.
      f_equal. apply join_cons_cons.
    + split; apply includes_false, Hpieces; try done;
        [left|right; left].
Qed.

Lemma key_between_first_two_occurrences_witness :
  keyOf "main" "/home/runner/work/repo/.filediff/main/src/main/lib/main/a.js"
  = "src/" ∧
  keyOf "main" "/home/runner/work/repo/.filediff/main/dist/a.js" = "dist/a.js".
Proof.
  split.
  - destruct (key_between_first_two_occurrences
                "/home/runner/work/repo/.filediff/main/src/main/lib/main/a.js"
                "main") as (_ & _ & Hkey).
    exact (proj1 (Hkey "src/" eq_refl)).
  - destruct (key_between_first_two_occurrences
                "/home/runner/work/repo/.filediff/main/dist/a.js"
                "main") as (_ & _ & Hkey).
    exact (proj1 (Hkey "dist/a.js" eq_refl)).
Defined.

(** * Display names *)

Lemma substring_drop p t :
  String.substring (String.length p) (String.length t) (p +:+ t) = t.
Proof.
  induction p as [|c p IH]; rewrite ?string_app_cons; cbn [String.length String.substring].
  - rewrite string_app_nil_l.
    induction t as [|x t IHt]; [done|]. cbn. by rewrite IHt.
  - exact IH.
Qed.

Lemma sliceFrom_app p t : JS.sliceFrom (p +:+ t) (Z.of_nat (String.length p)) = t.
Proof.
  unfold JS.sliceFrom, JS.slice, JS.clampIndex. rewrite string_length_app.
  destruct (Z.ltb_spec (Z.of_nat (String.length p)) 0) as [?|_]; [lia|].
  destruct (Z.ltb_spec (Z.of_nat (String.length p + String.length t)) 0)
    as [?|_]; [lia|].
  rewrite !Z.min_l by lia.
  replace (Z.of_nat (String.length p + String.length t)
           - Z.of_nat (String.length p)) with (Z.of_nat (String.length t)) by lia.
  rewrite Z.max_l by lia. rewrite !Nat2Z.id. apply substring_drop.
Qed.

Lemma prefixOf_length p s : prefixOf p s → (String.length p ≤ String.length s)%nat.
Proof. intros [t ->]. rewrite string_length_app. lia. Qed.

Lemma prefixOf_antisym p q : prefixOf p q → prefixOf q p → p = q.
Proof.
  intros [t Ht] Hq. apply prefixOf_length in Hq. subst q.
  rewrite string_length_app in Hq. destruct t; [by rewrite string_app_nil_r|].
  cbn in Hq. lia.
Qed.

Lemma commonFilePath_prefix targetStats prStats path :
  path ∈ allFilePaths targetStats prStats →
  prefixOf (commonFilePath targetStats prStats) path.
Proof.
  intros Hin.
  destruct (decide (2 ≤ length (allFilePaths targetStats prStats))%nat)
    as [Hlen|Hlen].
  - destruct (getCommonStringStart_spec _ Hlen)
      as (lo & hi & _ & _ & _ & _ & Hpre & _).
    eapply prefixOf_trans; [apply commonFilePathOf_prefix|by apply Hpre].
  - unfold commonFilePath. rewrite getCommonStringStart_short by lia.
    apply prefixOf_nil.
Qed.

(** X2.  The name shown in a row is the path without the common directory:
    putting the common directory back in front gives the path, so that two
    paths of the union never share a name. *)
Theorem display_name_round_trip (targetStats prStats : BranchStats) :
  let shown := commonFilePath targetStats prStats in
  (∀ path,
     is_Some (files prStats !! path) ∨ is_Some (files targetStats !! path) →
     shown +:+ displayName shown path = path) ∧
  (∀ path1 path2,
     is_Some (files prStats !! path1) ∨ is_Some (files targetStats !! path1) →
     is_Some (files prStats !! path2) ∨ is_Some (files targetStats !! path2) →
     displayName shown path1 = displayName shown path2 → path1 = path2).
Proof.
  intros shown.
  assert (Hround : ∀ path,
    is_Some (files prStats !! path) ∨ is_Some (files targetStats !! path) →
    shown +:+ displayName shown path = path).
  { intros path Hin. apply elem_of_allFilePaths in Hin.
    destruct (commonFilePath_prefix _ _ _ Hin) as [t Ht]. fold shown in Ht.
    unfold displayName. rewrite Ht at 1. by rewrite sliceFrom_app. }
  split; [done|]. intros path1 path2 H1 H2 Heq.
  by rewrite <- (Hround path1 H1), <- (Hround path2 H2), Heq.
Qed.

Lemma display_name_round_trip_witness :
  let metric := λ n, {| size := n; gzip := n; brotli := n |} in
  let targetStats :=
    {| totalSize := 100; totalGzip := 100; totalBrotli := 100;
       files := {[ "dist/app/x.js" := metric 100 ]} |} in
  let prStats :=
    {| totalSize := 200; totalGzip := 200; totalBrotli := 200;
       files := {[ "dist/app/x.js" := metric 150;
                   "dist/assets/y.js" := metric 50 ]} |} in
  commonFilePath targetStats prStats
  +:+ displayName (commonFilePath targetStats prStats) "dist/assets/y.js"
  = "dist/assets/y.js" ∧
  displayName (commonFilePath targetStats prStats) "dist/assets/y.js"
  = "assets/y.js".
Proof.
  intros metric targetStats prStats.
  destruct (display_name_round_trip targetStats prStats) as [Hround _].
  assert (Hin : is_Some (files prStats !! "dist/assets/y.js")
                ∨ is_Some (files targetStats !! "dist/assets/y.js"))
    by (left; by eexists).
  split; [exact (Hround "dist/assets/y.js" Hin)|reflexivity].
Defined.

Lemma getCommonStringStart_same_elements (l k : list string) :
  (2 ≤ length l)%nat → (2 ≤ length k)%nat → (∀ x, x ∈ l ↔ x ∈ k) →
  getCommonStringStart l = getCommonStringStart k.
Proof.
  intros Hl Hk Hsame.
  destruct (getCommonStringStart_spec l Hl)
    as (lo & hi & _ & _ & _ & _ & Hpre & Hgreatest).
  destruct (getCommonStringStart_spec k Hk)
    as (lo' & hi' & _ & _ & _ & _ & Hpre' & Hgreatest').
  apply prefixOf_antisym.
  - apply Hgreatest'. intros s Hs. apply Hpre. by apply Hsame.
  - apply Hgreatest. intros s Hs. apply Hpre'. by apply Hsame.
Qed.

(** X3.  [getCommonStringStart] does not depend on the order of the strings
    it is given, and from two strings on it depends on the set of them
    only. *)
Theorem getCommonStringStart_order (l k : list string) :
  (l ≡ₚ k → getCommonStringStart l = getCommonStringStart k) ∧
  ((2 ≤ length l)%nat → (2 ≤ length k)%nat → (∀ x, x ∈ l ↔ x ∈ k) →
   getCommonStringStart l = getCommonStringStart k).
Proof.
  split; [|apply getCommonStringStart_same_elements].
  intros Hperm. pose proof (Permutation_length Hperm) as Hlen.
  destruct (decide (2 ≤ length l)%nat) as [Hl|Hl].
  - apply getCommonStringStart_same_elements; [done|lia|].
    intros x. by rewrite Hperm.
  - by rewrite !getCommonStringStart_short by lia.
Qed.

Lemma getCommonStringStart_order_witness :
  getCommonStringStart ["a/e.js"; "a/b/c.js"; "a/b/d.js"]
  = getCommonStringStart ["a/b/c.js"; "a/b/d.js"; "a/e.js"] ∧
  getCommonStringStart ["a/b/c.js"; "a/b/d.js"; "a/b/c.js"]
  = getCommonStringStart ["a/b/d.js"; "a/b/c.js"].
Proof.
  split.
  - apply (proj1 (getCommonStringStart_order _ _)).
    change (["a/e.js"] ++ ["a/b/c.js"; "a/b/d.js"]
            ≡ₚ ["a/b/c.js"; "a/b/d.js"] ++ ["a/e.js"]).
    apply Permutation_app_comm.
  - apply (proj2 (getCommonStringStart_order _ _)); [cbn; lia..|].
    intros x. rewrite !elem_of_cons, !elem_of_nil. tauto.
Defined.

(** * More about the table *)




(** * The two classifications agree *)







(** * The run as a whole *)

Section RunInvariants.

Context {FS : Type} (host : Host FS).

Lemma Calls_ret {A} P (a : A) : Calls (FS := FS) P (ret a).
Proof. intros w r w' [= <- <-]. exists []. by rewrite app_nil_r. Qed.

Lemma Calls_bind {A B} P (m : M FS A) (k : A → M FS B) :
  Calls P m → (∀ a, Calls P (k a)) → Calls P (bind m k).
Proof.
  intros Hm Hk w r w'' [(a & w' & H1 & H2)|(msg & H1 & _)]%bind_inv.
  - destruct (Hm _ _ _ H1) as (cs & Hcs & Hq).
    destruct (Hk _ _ _ _ H2) as (cs' & Hcs' & Hq').
    exists (cs ++ cs'). split; [by rewrite Hcs', Hcs, app_assoc|].
    by apply Forall_app.
  - by eapply Hm.
Qed.






(** ** What happens to the comments, whatever the outcome *)

Lemma filter_none (l : list Comment.t) :
  filter (λ c, Comment.id c ∉ @nil Z) l = l.
Proof. apply filter_all. intros c _. apply not_elem_of_nil. Qed.

Lemma deleteExisting_comments owner repo data n w r w' :
  deleteExisting host owner repo data n w = (r, w') →
  fs w' = fs w ∧
  ∃ ids, ids ⊆ Comment.id <$> filter (λ c, marked c = true) data ∧
         comments w' = filter (λ c, Comment.id c ∉ ids) (comments w).
Proof.
  revert n w. induction data as [|comment rest IH]; intros n w.
  - intros [= <- <-]. split; [done|]. exists []. split; [done|].
    symmetry. apply filter_all. intros c _. apply not_elem_of_nil.
  - cbn [deleteExisting]. rewrite filter_cons.
    destruct (decide (marked comment = true)) as [Hm|Hm]; unfold marked in Hm;
      destruct (Comment.body comment) as [body|]; try done;
      try (destruct (JS.startsWith body commentHash); try done);
      try apply IH.
    intros [(? & w1 & Hdel & Hrest)|(msg & Hdel & _)]%bind_inv.
    + apply api_Ok in Hdel as [_ [= _ <-]].
      apply IH in Hrest as (Hfs & ids & Hids & Hcomments).
      cbn in Hfs, Hcomments. split; [done|].
      exists (Comment.id comment :: ids). split.
      * rewrite fmap_cons. intros i [->|Hi]%elem_of_cons; [left|right; auto].
      * rewrite Hcomments, list_filter_filter. apply list_filter_iff.
        intros c. rewrite not_elem_of_cons. tauto.
    + unfold deleteComment, api in Hdel.
      destruct (h_apiError host _ _); [|done]. injection Hdel as _ <-.
      split; [done|]. exists []. split; [apply list_subseteq_nil|].
      symmetry. apply filter_all. intros c _. apply not_elem_of_nil.
Qed.

(** The comments after [publish], whatever its outcome: some of the marked
    comments are gone, and at most one comment is new, with the report as
    its body. *)
Lemma publish_comments repository pull_request fileDetailsOpen replaceComment
    targetStats prStats w r w' :
  publish host repository pull_request fileDetailsOpen replaceComment
    targetStats prStats w = (r, w') →
  ∃ ids new,
    ids ⊆ Comment.id <$> filter (λ c, marked c = true) (comments w) ∧
    comments w' = filter (λ c, Comment.id c ∉ ids) (comments w) ++ new ∧
    (new = [] ∨
     ∃ i, new = [{| Comment.id := i;
                    Comment.body :=
                      Some (getStatComment (h_prettyBytes host) targetStats
                              prStats (bool_decide (fileDetailsOpen = "true"))) |}]).
Proof.
  unfold publish.
  assert (Hcreate : ∀ w1 r w',
    createComment host (owner_login repository) (name repository)
      (number pull_request)
      (getStatComment (h_prettyBytes host) targetStats prStats
         (bool_decide (fileDetailsOpen = "true"))) w1 = (r, w') →
    ∃ new, comments w' = comments w1 ++ new ∧
      (new = [] ∨
       ∃ i, new = [{| Comment.id := i;
                      Comment.body :=
                        Some (getStatComment (h_prettyBytes host) targetStats
                                prStats (bool_decide (fileDetailsOpen = "true"))) |}])).
  { intros w1 r1 w1'. unfold createComment, api.
    destruct (h_apiError host _ _); intros [= <- <-].
    - exists []. split; [by rewrite app_nil_r|by left].
    - eexists. split; [done|]. right. by eexists. }
  intros [(? & w1 & Hreplace & Hc)|(msg & Hreplace & _)]%bind_inv.
  - apply Hcreate in Hc as (new & Hc & Hnew).
    destruct (decide (replaceComment = "true")).
    + apply bind_Ok_inv in Hreplace as (data & w2 & Hlist & Hreplace).
      apply api_Ok in Hlist as [_ [= <- <-]].
      apply bind_Ok_inv in Hreplace as (n & w3 & Hdel & Hret).
      unfold ret in Hret. simplify_eq.
      apply deleteExisting_comments in Hdel as (_ & ids & Hids & Hcs).
      exists ids, new. by rewrite Hc, Hcs.
    + unfold ret in Hreplace. simplify_eq. exists [], new.
      split; [apply list_subseteq_nil|]. by rewrite filter_none.
  - destruct (decide (replaceComment = "true"));
      [|unfold ret in Hreplace; congruence].
    apply bind_inv in Hreplace
      as [(data & w2 & Hlist & Hreplace)|(msg' & Hlist & _)].
    + apply api_Ok in Hlist as [_ [= <- <-]].
      apply bind_inv in Hreplace
        as [(n & w3 & Hdel & Hret)|(msg' & Hdel & _)]; [done|].
      apply deleteExisting_comments in Hdel as (_ & ids & Hids & Hcs).
      exists ids, []. rewrite app_nil_r. split; [done|]. split; [done|by left].
    + unfold listComments, api in Hlist.
      destruct (h_apiError host _ _); [|done]. injection Hlist as _ <-.
      exists [], []. rewrite app_nil_r. split; [apply list_subseteq_nil|].
      split; [by rewrite filter_none|by left].
Qed.

(** A run leaves the comments alone, or has measured both branches and
    found their total sizes different. *)
Lemma runTry_cases ctx w r w2 :
  runTry host ctx w = (r, w2) →
  comments w2 = comments w ∨
  ∃ repo0 pr0 fileDetailsOpen replaceComment targetStats prStats w1,
    repository (payload ctx) = Some repo0 ∧
    pull_request (payload ctx) = Some pr0 ∧
    measure host ctx pr0 w
    = (Ok (fileDetailsOpen, replaceComment, targetStats, prStats), w1) ∧
    comments w1 = comments w ∧
    totalSize targetStats ≠ totalSize prStats ∧
    publish host repo0 pr0 fileDetailsOpen replaceComment
      targetStats prStats w1 = (r, w2).
Proof.
  rewrite runTry_parts.
  destruct (negb (truthy (GITHUB_TOKEN ctx))); [intros [= <- <-]; by left|].
  destruct (repository (payload ctx)) as [repo0|];
    [|intros [= <- <-]; by left].
  destruct (pull_request (payload ctx)) as [pr0|];
    [|intros [= <- <-]; by left].
  destruct (measure host ctx pr0 w) as [[[[[fdo rc] t] p]|msg] w1]
    eqn:Hm; pose proof (Quiet_measure host ctx pr0 _ _ _ Hm)
    as [Hcomments _].
  - destruct (decide (totalSize t = totalSize p)).
    + intros [= <- <-]. by left.
    + intros Hp. right. by exists repo0, pr0, fdo, rc, t, p, w1.
  - intros [= <- <-]. by left.
Qed.

Lemma runTry_reaches_publish ctx w r w2 :
  runTry host ctx w = (r, w2) →
  comments w2 ≠ comments w →
  ∃ repo0 pr0 fileDetailsOpen replaceComment targetStats prStats w1,
    repository (payload ctx) = Some repo0 ∧
    pull_request (payload ctx) = Some pr0 ∧
    measure host ctx pr0 w
    = (Ok (fileDetailsOpen, replaceComment, targetStats, prStats), w1) ∧
    comments w1 = comments w ∧
    totalSize targetStats ≠ totalSize prStats ∧
    publish host repo0 pr0 fileDetailsOpen replaceComment
      targetStats prStats w1 = (r, w2).
Proof. intros [?|?]%runTry_cases; done. Qed.

End RunInvariants.

Lemma getStatComment_marked prettyBytes targetStats prStats fileDetailsOpen :
  JS.startsWith
    (getStatComment prettyBytes targetStats prStats fileDetailsOpen)
    commentHash = true.
Proof.
  unfold JS.startsWith. apply prefix_prefixOf. unfold getStatComment.
  destruct (fileColumnsOf prettyBytes targetStats prStats) as [ft fc].
  by eexists.
Qed.

Lemma filter_nothing {A} (P : A → Prop) `{!∀ x, Decision (P x)} (l : list A) :
  (∀ x, x ∈ l → ¬ P x) → filter P l = [].
Proof.
  induction l as [|x l IH]; intros Hall; [done|].
  rewrite filter_cons_False by (apply Hall; left). apply IH.
  intros y Hy. apply Hall. by right.
Qed.


(** X7.  Whatever the outcome of a run, also when a call of the hosting API
    is rejected half way: every comment that the run leaves was there before
    or carries the marker, at most one comment is new, and, the identifiers
    of the comments being distinct, no comment without the marker is
    deleted. *)
Theorem run_touches_only_reports {FS : Type} (host : Host FS) (ctx : Context)
    (w : World FS) :
  NoDup (Comment.id <$> comments w) →
  let w' := run host ctx w in
  (∀ c, c ∈ comments w' → c ∈ comments w ∨ marked c = true) ∧
  (∀ c, c ∈ comments w → marked c = false → c ∈ comments w') ∧
  (length (comments w') ≤ S (length (comments w)))%nat.
Proof.
  intros Hnd w'.
  assert (comments w' = comments (runTry host ctx w).2) as Hrun.
  { subst w'. unfold run. by destruct (runTry host ctx w) as [[[]|msg] w2]. }
  destruct (runTry host ctx w) as [r w2] eqn:Htry. cbn [snd] in Hrun.
  destruct (runTry_cases host ctx w r w2 Htry)
    as [Heq|(repo0 & pr0 & fdo & rc & t & p & w1 & _ & _ & _ & Hc1 & _ & Hpub)].
  { rewrite Hrun, Heq. split; [auto|]. split; [auto|lia]. }
  apply publish_comments in Hpub as (ids & new & Hids & Hc & Hnew).
  rewrite Hc1 in Hids, Hc. rewrite Hrun, Hc. split; [|split].
  - intros c [[_ Hin]%list_elem_of_filter|Hin]%elem_of_app; [by left|].
    right. destruct Hnew as [->|[i ->]]; [by apply elem_of_nil in Hin|].
    apply list_elem_of_singleton in Hin as ->. apply getStatComment_marked.
  - intros c Hin Hm. apply elem_of_app. left. apply list_elem_of_filter.
    split; [|done]. intros Hid. apply Hids in Hid.
    apply list_elem_of_fmap in Hid as (c' & Heq & [Hm' Hc']%list_elem_of_filter).
    assert (c = c') as <- by by apply (NoDup_fmap_elem_inj Comment.id (comments w)).
    congruence.
  - rewrite length_app.
    pose proof (length_filter (λ c, Comment.id c ∉ ids) (comments w)).
    destruct Hnew as [->|[i ->]]; cbn [length]; lia.
Qed.

Lemma run_touches_only_reports_witness :
  let w := sampleWorld changedFiles sampleComments in
  let w' := run (sampleHost []) (sampleContext sampleInputs) w in
  {| Comment.id := 1; Comment.body := Some "hello" |} ∈ comments w' ∧
  {| Comment.id := 3; Comment.body := None |} ∈ comments w' ∧
  (length (comments w') ≤ 5)%nat.
Proof.
  intros w w'.
  assert (NoDup (Comment.id <$> comments w)) as Hnd.
  { apply (bool_decide_unpack _). by vm_compute. }
  destruct (run_touches_only_reports (sampleHost [])
              (sampleContext sampleInputs) w Hnd) as (_ & Hkeep & Hlen).
  split; [|split].
  - apply Hkeep; [|reflexivity]. by left.
  - apply Hkeep; [|reflexivity]. right. right. by left.
  - exact Hlen.
Defined.

(** X8.  A run that completes and changes the comments has added a report
    as the last comment, and this report carries the marker.  When the input
    [replace_comment] is "true", the listing being complete, it is then the
    only comment with the marker; otherwise the comments with the marker are
    one more than before. *)
Theorem one_report_after_replacement {FS : Type} (host : Host FS)
    (ctx : Context) (w w2 : World FS) :
  runTry host ctx w = (Ok tt, w2) →
  comments w2 ≠ comments w →
  let replaceComment := JS.trim (default "" (inputEnv ctx "replace_comment")) in
  let reports := λ cs : list Comment.t, filter (λ c, marked c = true) cs in
  ∃ report,
    last (comments w2) = Some report ∧
    marked report = true ∧
    (replaceComment = "true" → reports (comments w2) = [report]) ∧
    (replaceComment ≠ "true" →
       reports (comments w2) = reports (comments w) ++ [report]).
Proof.
  intros Htry Hne replaceComment reports.
  destruct (runTry_reaches_publish host ctx w _ w2 Htry Hne)
    as (repo0 & pr0 & fdo & rc & t & p & w1 & _ & _ & Hm & Hc1 & _ & Hpub).
  apply measure_inputs in Hm as [_ Hrc]. fold replaceComment in Hrc. subst rc.
  apply publish_Ok in Hpub as [Hc _]. rewrite Hc1 in Hc.
  eexists. rewrite Hc, last_snoc. split; [done|].
  split; [apply getStatComment_marked|].
  unfold reports. rewrite filter_app, filter_cons_True
    by apply getStatComment_marked.
  rewrite filter_nil. split.
  - intros Htrue. rewrite decide_True by done.
    rewrite filter_nothing; [done|].
    intros c Hin Hmarked. apply kept_unmarked in Hin. congruence.
  - intros Hfalse. by rewrite decide_False by done.
Qed.

Lemma one_report_after_replacement_witness :
  let w := sampleWorld changedFiles sampleComments in
  let w2 := run (sampleHost []) (sampleContext sampleInputs) w in
  length (filter (λ c, marked c = true) (comments w)) = 2%nat ∧
  length (filter (λ c, marked c = true) (comments w2)) = 1%nat.
Proof.
  intros w w2.
  assert (∃ w2', runTry (sampleHost []) (sampleContext sampleInputs) w
                 = (Ok tt, w2') ∧ w2 = w2' ∧ comments w2' ≠ comments w)
    as (w2' & Hrun & -> & Hne)
    by (vm_compute; eexists; split; [reflexivity|]; split; [reflexivity|];
        discriminate).
  destruct (one_report_after_replacement (sampleHost [])
              (sampleContext sampleInputs) w w2' Hrun Hne)
    as (report & Hlast & _ & Htrue & _).
  rewrite (Htrue eq_refl). split; reflexivity.
Defined.

(** X9.  A run changes the comments of the pull request only after it has
    read the credential, found a repository and a pull request in the
    payload, measured both branches without an error, and found the two
    total sizes different: a failing input, copy, git command, build step or
    file read leaves the comments as they were. *)
Theorem comments_change_needs_difference {FS : Type} (host : Host FS)
    (ctx : Context) (w : World FS) :
  comments (run host ctx w) ≠ comments w →
  truthy (GITHUB_TOKEN ctx) = true ∧
  ∃ repo0 pr0 fileDetailsOpen replaceComment targetStats prStats w1,
    repository (payload ctx) = Some repo0 ∧
    pull_request (payload ctx) = Some pr0 ∧
    measure host ctx pr0 w
    = (Ok (fileDetailsOpen, replaceComment, targetStats, prStats), w1) ∧
    totalSize targetStats ≠ totalSize prStats.
Proof.
  intros Hne.
  assert (comments (run host ctx w) = comments (runTry host ctx w).2) as Hrun.
  { unfold run. by destruct (runTry host ctx w) as [[[]|msg] w2]. }
  rewrite Hrun in Hne. destruct (runTry host ctx w) as [r w2] eqn:Htry.
  cbn [snd] in Hne. split.
  - rewrite runTry_parts in Htry.
    destruct (truthy (GITHUB_TOKEN ctx)); [done|].
    cbn [negb] in Htry. by injection Htry as _ <-.
  - destruct (runTry_reaches_publish host ctx w r w2 Htry Hne)
      as (repo0 & pr0 & fdo & rc & t & p & w1 & ? & ? & ? & _ & ? & _).
    by exists repo0, pr0, fdo, rc, t, p, w1.
Qed.

Lemma comments_change_needs_difference_witness :
  let w := sampleWorld changedFiles sampleComments in
  ∃ targetStats prStats w1,
    (measure (sampleHost []) (sampleContext sampleInputs)
       {| head_ref := "feature"; number := 7 |} w).1
    = Ok ("false", "true", targetStats, prStats) ∧
    totalSize targetStats ≠ totalSize prStats ∧
    w1 = (measure (sampleHost []) (sampleContext sampleInputs)
            {| head_ref := "feature"; number := 7 |} w).2.
Proof.
  intros w.
  destruct (comments_change_needs_difference (sampleHost [])
              (sampleContext sampleInputs) w)
    as (_ & repo0 & pr0 & fdo & rc & t & p & w1 & Hrepo & Hpr & Hm & Hne).
  { by vm_compute. }
  injection Hpr as <-. exists t, p, w1. rewrite Hm. cbn [fst snd].
  split; [|done]. apply measure_inputs in Hm as [-> ->]. reflexivity.
Defined.

(** X10.  With the credential, a repository and a pull request, a workflow
    that gives no [target_branch] (or an empty one) makes the run fail after
    reading that one input; with a target branch but no [dir_glob] it fails
    after reading the two.  In both cases nothing else is called: no copy,
    no command, no comment. *)
Theorem required_inputs_fail_first {FS : Type} (host : Host FS)
    (ctx : Context) (repo0 : Repository) (pr0 : PullRequest) (w : World FS) :
  truthy (GITHUB_TOKEN ctx) = true →
  repository (payload ctx) = Some repo0 →
  pull_request (payload ctx) = Some pr0 →
  let supplied := λ name, truthy (workflowInputs ctx !! name) in
  let failsAfter := λ names msg,
    run host ctx w
    = {| fs := fs w; comments := comments w;
         calls := calls w ++ (GetInput <$> names) ++ [SetFailed msg] |} in
  (supplied "target_branch" = false →
     failsAfter ["target_branch"]
       "Input required and not supplied: target_branch") ∧
  (supplied "target_branch" = true → supplied "dir_glob" = false →
     failsAfter ["target_branch"; "dir_glob"]
       "Input required and not supplied: dir_glob").
Proof.
  intros Htoken Hrepo Hpr supplied failsAfter. subst supplied failsAfter.
  cbv beta.
  assert (Henv : ∀ name, name = "target_branch" ∨ name = "dir_glob" →
            truthy (Some (default "" (inputEnv ctx name)))
            = truthy (workflowInputs ctx !! name)).
  { intros name Hname. unfold inputEnv.
    destruct (workflowInputs ctx !! name) as [v|] eqn:Hv.
    - by rewrite (lookup_union_Some_l _ _ _ v).
    - rewrite lookup_union_r by done. by destruct Hname as [-> | ->]. }
  split.
  - intros Htarget. unfold run, runTry. rewrite Htoken, Hrepo, Hpr. cbn [negb].
    unfold bind at 1. unfold getInput at 1.
    rewrite (Henv "target_branch"), Htarget by auto. cbn [andb negb].
    unfold logCall. cbn. by rewrite <- app_assoc.
  - intros Htarget Hglob. unfold run, runTry. rewrite Htoken, Hrepo, Hpr.
    cbn [negb]. unfold bind at 1. unfold getInput at 1.
    rewrite (Henv "target_branch"), Htarget by auto. cbn [andb negb].
    unfold bind at 1. unfold getInput at 1.
    rewrite (Henv "dir_glob"), Hglob by auto. cbn [andb negb].
    unfold logCall. cbn. by rewrite <- !app_assoc.
Qed.

Lemma required_inputs_fail_first_witness :
  calls (run (sampleHost [])
           (sampleContext {[ "target_branch" := "main" ]})
           (sampleWorld changedFiles sampleComments))
  = [GetInput "target_branch"; GetInput "dir_glob";
     SetFailed "Input required and not supplied: dir_glob"].
Proof.
  destruct (required_inputs_fail_first (sampleHost [])
              (sampleContext {[ "target_branch" := "main" ]})
              {| owner_login := "shopify"; name := "repo" |}
              {| head_ref := "feature"; number := 7 |}
              (sampleWorld changedFiles sampleComments)
              eq_refl eq_refl eq_refl) as [_ H].
  rewrite (H eq_refl eq_refl). reflexivity.
Defined.

(** * The aggregation of one branch *)

Section BranchFacts.

Context {FS : Type} (host : Host FS).

Lemma Calls_log {A} (P : Call → Prop) c (f : World FS → result A * World FS) :
  P c →
  (∀ w, calls (f w).2 = calls w) →
  Calls P (λ w, f (logCall c w)).
Proof.
  intros Hc Hf w r w' H. exists [c]. split; [|by constructor].
  specialize (Hf (logCall c w)). rewrite H in Hf. exact Hf.
Qed.

Lemma Calls_cp P src dst : P (Cp src dst) → Calls P (cp host src dst).
Proof.
  intros Hc w r w'. unfold cp.
  destruct (h_cp host _ src dst); intros [= <- <-];
    exists [Cp src dst]; (split; [done|by constructor]).
Qed.

Lemma Calls_exec P cmd args cwd :
  P (Exec cmd args cwd) → Calls P (exec host cmd args cwd).
Proof.
  intros Hc w r w'. unfold exec.
  destruct (h_exec host _ cmd args cwd); intros [= <- <-];
    exists [Exec cmd args cwd]; (split; [done|by constructor]).
Qed.

Lemma Calls_globby P patterns cwd :
  P (Globby patterns cwd) → Calls P (globby host patterns cwd).
Proof.
  intros Hc w r w' [= <- <-]. exists [Globby patterns cwd].
  split; [done|by constructor].
Qed.

Lemma Calls_stat P file : P (Stat file) → Calls P (stat host file).
Proof.
  intros Hc w r w' [= <- <-]. exists [Stat file]. split; [done|by constructor].
Qed.

Lemma Calls_readFile P file : P (ReadFile file) → Calls P (readFile host file).
Proof.
  intros Hc w r w' [= <- <-]. exists [ReadFile file].
  split; [done|by constructor].
Qed.

Lemma Calls_getBranchStats branch dirGlob script :
  Calls (inDir ("../.filediff/" +:+ branch))
    (getBranchStats host branch dirGlob script).
Proof.
  unfold getBranchStats.
  apply Calls_bind; [by apply Calls_cp|intros _].
  apply Calls_bind; [by apply Calls_exec|intros _].
  apply Calls_bind; [by apply Calls_exec|intros _].
  apply Calls_bind.
  { unfold runScript. destruct (truthy script); [|apply Calls_ret].
    induction (commandsOf (default "" script)) as [|cmd rest IH];
      cbn [runCommands]; [apply Calls_ret|].
    destruct (commandOf cmd) as [cmdName cmdArgs].
    apply Calls_bind; [by apply Calls_exec|done]. }
  intros _. apply Calls_bind; [by apply Calls_globby|intros fileList].
  generalize emptyStats.
  induction fileList as [|file rest IH]; intros branchStats; cbn [collect];
    [apply Calls_ret|].
  apply Calls_bind; [|done]. unfold getFileStats.
  apply Calls_bind; [by apply Calls_stat|intros ?].
  apply Calls_bind; [by apply Calls_readFile|intros ?]. apply Calls_ret.
Qed.

(** One file: the two reads, in this order, and the three assignments with
    what was measured. *)
Lemma getFileStats_measured file branch branchStats w branchStats' w' :
  getFileStats host file branch branchStats w = (Ok branchStats', w') →
  ∃ m, measured host (fs w) file = Some m ∧
       branchStats' = recordFile file branch m branchStats ∧
       fs w' = fs w ∧ comments w' = comments w ∧
       calls w' = calls w ++ [Stat file; ReadFile file].
Proof.
  unfold getFileStats, bind, stat, readFile, ret, measured. cbn [fs logCall].
  destruct (h_stat host (fs w) file) as [stats_size|]; [|done].
  destruct (h_readFile host (fs w) file) as [fileContents|]; [|done].
  intros [= <- <-]. eexists. split; [done|]. split; [done|].
  cbn. by rewrite <- app_assoc.
Qed.

Lemma collect_measured fileList branch branchStats w branchStats' w' :
  collect host fileList branch branchStats w = (Ok branchStats', w') →
  fs w' = fs w ∧ comments w' = comments w ∧
  (∃ cs, calls w' = calls w ++ cs ∧ Forall (fileCall fileList) cs ∧
         ∀ file, file ∈ fileList → Stat file ∈ cs ∧ ReadFile file ∈ cs) ∧
  ∃ ms,
    Forall2 (λ file m, measured host (fs w) file = Some m) fileList ms ∧
    totalSize branchStats' = totalSize branchStats + sumList (size <$> ms) ∧
    totalGzip branchStats' = totalGzip branchStats + sumList (gzip <$> ms) ∧
    totalBrotli branchStats'
    = totalBrotli branchStats + sumList (brotli <$> ms) ∧
    (∀ k m, files branchStats' !! k = Some m →
       files branchStats !! k = Some m ∨
       ∃ file, file ∈ fileList ∧ keyOf branch file = k ∧
               measured host (fs w) file = Some m).
Proof.
  revert branchStats w.
  induction fileList as [|file rest IH]; intros branchStats w Hc.
  - injection Hc as <- <-. split; [done|]. split; [done|]. split.
    + exists []. rewrite app_nil_r. split; [done|]. split; [done|].
      intros file Hin. by apply elem_of_nil in Hin.
    + exists []. cbn. split; [constructor|]. repeat split; try lia. auto.
  - cbn [collect] in Hc. apply bind_Ok_inv in Hc as (bs1 & w1 & H1 & Hc).
    apply getFileStats_measured in H1 as (m & Hm & -> & Hfs & Hcomments & Hcalls).
    apply IH in Hc
      as (Hfs' & Hcomments' & (cs & Hcs & Hall & Hin) & ms & Hms & Hs & Hg & Hb
          & Hfiles).
    rewrite Hfs in *. split; [done|]. split; [congruence|]. split.
    + exists (Stat file :: ReadFile file :: cs). split; [|split].
      * rewrite Hcs, Hcalls, <- app_assoc. done.
      * constructor; [exists file; split; [left|auto]|].
        constructor; [exists file; split; [left|auto]|].
        eapply Forall_impl; [done|]. intros c (f & Hf & Hc).
        exists f. split; [by right|done].
      * intros f [->|Hf]%elem_of_cons.
        -- split; [left|right; left].
        -- destruct (Hin f Hf). split; by do 2 right.
    + exists (m :: ms). split; [by constructor|].
      cbn [recordFile totalSize totalGzip totalBrotli files] in *.
      rewrite !fmap_cons. cbn [sumList foldr]. fold (sumList (size <$> ms)).
      fold (sumList (gzip <$> ms)). fold (sumList (brotli <$> ms)).
      split; [lia|]. split; [lia|]. split; [lia|].
      intros k m' Hk. apply Hfiles in Hk as [Hk|(f & Hf & Hkey & Hmf)].
      * fold (keyOf branch file) in Hk.
        apply lookup_insert_Some in Hk as [[<- <-]|[_ Hk]]; [|by left].
        right. exists file. split; [left|done].
      * right. exists f. split; [by right|done].
Qed.


Lemma runScript_Ok script cwd w w' :
  runScript host script cwd w = (Ok tt, w') →
  comments w' = comments w ∧
  calls w'
  = calls w ++ (stepCall cwd <$>
                  (if truthy script
                   then commandOf <$> commandsOf (default "" script) else [])).
Proof.
  unfold runScript. destruct (truthy script).
  - intros (cs & Hsteps & Hcalls & Hcomments)%runCommands_runsSteps.
    apply runsSteps_Ok in Hsteps as ->. done.
  - intros [= <-]. by rewrite app_nil_r.
Qed.

Lemma cp_Ok src dst w w' :
  cp host src dst w = (Ok tt, w') →
  comments w' = comments w ∧ calls w' = calls w ++ [Cp src dst].
Proof. unfold cp. by destruct (h_cp host _ src dst); intros [= <-]. Qed.

Lemma exec_Ok cmd args cwd w w' :
  exec host cmd args cwd w = (Ok tt, w') →
  comments w' = comments w ∧ calls w' = calls w ++ [Exec cmd args cwd].
Proof. unfold exec. by destruct (h_exec host _ cmd args cwd); intros [= <-]. Qed.

Lemma getBranchStats_Ok branch dirGlob script w branchStats w' :
  getBranchStats host branch dirGlob script w = (Ok branchStats, w') →
  let cwd := "../.filediff/" +:+ branch in
  ∃ w1 fileList,
    comments w1 = comments w ∧
    calls w1
    = calls w
      ++ [Cp "." cwd; Exec "git" ["fetch"; "origin"; branch] cwd;
          Exec "git" ["checkout"; branch] cwd]
      ++ (stepCall cwd <$>
            (if truthy script
             then commandOf <$> commandsOf (default "" script) else []))
      ++ [Globby (JS.split "," dirGlob) cwd] ∧
    h_globby host (fs w1) (JS.split "," dirGlob) cwd = Ok fileList ∧
    collect host fileList branch emptyStats w1 = (Ok branchStats, w').
Proof.
  intros H cwd. unfold getBranchStats in H. fold cwd in H.
  apply bind_Ok_inv in H as ([] & w1 & [Hc1 Hk1]%cp_Ok & H).
  apply bind_Ok_inv in H as ([] & w2 & [Hc2 Hk2]%exec_Ok & H).
  apply bind_Ok_inv in H as ([] & w3 & [Hc3 Hk3]%exec_Ok & H).
  apply bind_Ok_inv in H as ([] & w4 & [Hc4 Hk4]%runScript_Ok & H).
  apply bind_Ok_inv in H as (fileList & w5 & Hglobby & H).
  unfold globby in Hglobby. injection Hglobby as Hglobby <-.
  exists (logCall (Globby (JS.split "," dirGlob) cwd) w4), fileList.
  split; [cbn; congruence|]. split; [|done].
  cbn [calls logCall]. rewrite Hk4, Hk3, Hk2, Hk1.
  by rewrite <- !app_assoc.
Qed.

End BranchFacts.

(** X11.  An aggregation that succeeds has made these calls, in this order:
    the copy of the repository into the workspace of the branch, [git
    fetch origin] and [git checkout] of the branch, the steps of the build
    script, one [globby] with the patterns that the commas of [dir_glob]
    separate; then, for every file found, a [stat] and a [readFile], and
    no other call.  Whatever the outcome, every copy, command and glob is
    directed at the workspace [../.filediff/<branch>], and the comments are
    not touched. *)
Theorem aggregation_calls {FS : Type} (host : Host FS)
    (branch dirGlob : string) (script : option string) (w w' : World FS)
    (r : result BranchStats) :
  getBranchStats host branch dirGlob script w = (r, w') →
  let cwd := "../.filediff/" +:+ branch in
  let steps :=
    if truthy script
    then commandOf <$> (JS.trim <$> JS.split "&&" (default "" script))
    else [] in
  comments w' = comments w ∧
  (∃ cs, calls w' = calls w ++ cs ∧ Forall (inDir cwd) cs) ∧
  (∀ branchStats, r = Ok branchStats →
     ∃ fileList cs,
       h_globby host (fs w') (JS.split "," dirGlob) cwd = Ok fileList ∧
       calls w'
       = calls w
         ++ [Cp "." cwd; Exec "git" ["fetch"; "origin"; branch] cwd;
             Exec "git" ["checkout"; branch] cwd]
         ++ (stepCall cwd <$> steps)
         ++ [Globby (JS.split "," dirGlob) cwd] ++ cs ∧
       Forall (fileCall fileList) cs ∧
       ∀ file, file ∈ fileList → Stat file ∈ cs ∧ ReadFile file ∈ cs).
Proof.
  intros Hrun cwd steps. split; [|split].
  - by destruct (Quiet_getBranchStats host _ _ _ _ _ _ Hrun).
  - exact (Calls_getBranchStats host _ _ _ _ _ _ Hrun).
  - intros branchStats ->.
    apply getBranchStats_Ok in Hrun
      as (w1 & fileList & Hcomments & Hcalls & Hglobby & Hcollect).
    apply collect_measured in Hcollect
      as (Hfs & _ & (cs & Hcs & Hall & Hin) & _).
    exists fileList, cs. rewrite Hfs. split; [done|]. split; [|done].
    rewrite Hcs, Hcalls. by rewrite <- !app_assoc.
Qed.

Lemma aggregation_calls_witness :
  let w := sampleWorld changedFiles [] in
  let out :=
    getBranchStats (sampleHost []) "feature" "dist/**,lib/*.js"
      (Some "npm ci && npm run build") w in
  take 6 (calls out.2)
  = [Cp "." "../.filediff/feature";
     Exec "git" ["fetch"; "origin"; "feature"] "../.filediff/feature";
     Exec "git" ["checkout"; "feature"] "../.filediff/feature";
     Exec "npm" ["ci"] "../.filediff/feature";
     Exec "npm" ["run"; "build"] "../.filediff/feature";
     Globby ["dist/**"; "lib/*.js"] "../.filediff/feature"].
Proof.
  intros w out.
  assert (∃ branchStats w', out = (Ok branchStats, w'))
    as (branchStats & w' & Hout) by (vm_compute; by do 2 eexists).
  destruct (aggregation_calls (sampleHost []) "feature" "dist/**,lib/*.js"
              (Some "npm ci && npm run build") w w' (Ok branchStats) Hout)
    as (_ & _ & Htrace).
  destruct (Htrace branchStats eq_refl) as (fileList & cs & _ & Hcalls & _).
  rewrite Hout. cbn [snd]. rewrite Hcalls. reflexivity.
Defined.



(** * The words of a build step *)

Lemma rev_nonempty acc : acc ≠ "" → String.rev acc ≠ "".
Proof.
  intros Hacc Hrev. apply (f_equal String.length) in Hrev.
  rewrite rev_length in Hrev. by destruct acc.
Qed.

Lemma splitSpaces_go_words s :
  (∀ t c, s = t +:+ String c "" → JS.is_space c = false) →
  (∀ acc word, acc ≠ "" →
     word ∈ JS.splitSpaces_go false acc s → word ≠ "") ∧
  (s ≠ "" → ∀ word, word ∈ JS.splitSpaces_go true "" s → word ≠ "").
Proof.
  induction s as [|c s IH]; intros Hend.
  - split; [|done]. intros acc word Hacc ->%list_elem_of_singleton.
    by apply rev_nonempty.
  - assert (Hs : JS.is_space c = true → s ≠ "").
    { intros Hc ->. by rewrite (Hend "" c) in Hc. }
    destruct IH as [IH1 IH2].
    { intros t x ->. apply (Hend (String c t) x). by rewrite string_app_cons. }
    cbn [JS.splitSpaces_go]. destruct (JS.is_space c) eqn:Hc.
    + split.
      * intros acc word Hacc [->|Hin]%elem_of_cons;
          [by apply rev_nonempty|by apply IH2; auto].
      * intros _. apply IH2; auto.
    + split.
      * intros acc word Hacc. by apply IH1.
      * intros _ word. by apply IH1.
Qed.

Lemma splitSpaces_words s word :
  trimmed s → s ≠ "" → word ∈ JS.splitSpaces s → word ≠ "".
Proof.
  intros [Hstart Hend] Hs. destruct s as [|c s]; [done|].
  unfold JS.splitSpaces. cbn [JS.splitSpaces_go].
  rewrite (Hstart c s eq_refl).
  apply splitSpaces_go_words; [|done].
  intros t x ->. apply (Hend (String c t) x). by rewrite string_app_cons.
Qed.

Lemma trim_trimmed s : trimmed (JS.trim s).
Proof. by destruct (trim_spec s) as (l & r & _ & _ & _ & ? & ?). Qed.

Lemma occursIn_middle sep l s r : occursIn sep s → occursIn sep (l +:+ s +:+ r).
Proof.
  intros (a & b & ->). exists (l +:+ a), (b +:+ r).
  by rewrite !string_app_assoc.
Qed.

(** X13.  Every command that the build runner makes of a script holds no
    [&&] and has no white space at its ends.  An empty command, which is
    what a script gives between two [&&] or behind a closing [&&], is
    executed as the program with the empty name and no argument; of any
    other command neither the name nor an argument is empty, and none holds
    white space: quotation marks do not keep words together. *)
Theorem script_command_words (script cmd : string) :
  cmd ∈ commandsOf script →
  ¬ occursIn "&&" cmd ∧
  trimmed cmd ∧
  (cmd = "" → commandOf cmd = ("", [])) ∧
  (cmd ≠ "" →
     ∀ word, word ∈ (commandOf cmd).1 :: (commandOf cmd).2 →
             word ≠ "" ∧ noSpace word).
Proof.
  unfold commandsOf. intros (segment & -> & Hin)%list_elem_of_fmap.
  split; [|split; [apply trim_trimmed|split]].
  - intros Hocc. apply (split_pieces "&&" script segment); [done..|].
    destruct (trim_spec segment) as (l & r & Hseg & _).
    rewrite Hseg. by apply occursIn_middle.
  - by intros ->.
  - intros Hne word. rewrite commandOf_tokens. intros Hword. split.
    + by apply (splitSpaces_words (JS.trim segment)); [apply trim_trimmed|..].
    + by apply (splitSpaces_noSpace (JS.trim segment)).
Qed.

Lemma script_command_words_witness :
  commandsOf "sh -c 'npm ci' &&" = ["sh -c 'npm ci'"; ""] ∧
  commandOf "sh -c 'npm ci'" = ("sh", ["-c"; "'npm"; "ci'"]) ∧
  commandOf "" = ("", []).
Proof.
  split; [reflexivity|].
  destruct (script_command_words "sh -c 'npm ci' &&" "") as (_ & _ & Hempty & _).
  { right. left. }
  split; [reflexivity|]. exact (Hempty eq_refl).
Defined.

(** X14.  The patterns handed to [globby] are the pieces of [dir_glob]
    between its commas: there is at least one, none holds a comma, joined
    by commas they give [dir_glob] back, and a [dir_glob] without a comma
    is the one pattern.  They are not trimmed: white space around a comma
    stays in the pattern. *)
Theorem dir_glob_patterns (dirGlob : string) :
  let patterns := JS.split "," dirGlob in
  patterns ≠ [] ∧
  JS.join "," patterns = dirGlob ∧
  (∀ pattern, pattern ∈ patterns → includes pattern "," = false) ∧
  (includes dirGlob "," = false ↔ patterns = [dirGlob]) ∧
  JS.split "," "dist/**, lib/*.js" = ["dist/**"; " lib/*.js"].
Proof.
  cbv zeta. split; [apply split_go_nonempty|].
  split; [by apply join_split|]. split; [|split; [|reflexivity]].
  - intros pattern Hin. apply includes_false. by apply (split_pieces "," dirGlob).
  - rewrite includes_false. by apply split_single.
Qed.

(** * The order of the union *)




(** * The sentence above the totals *)

(** X16.  Where pretty-bytes writes a plus sign before the positive numbers
    and before no other, the report opens with the marker and then says
    "added" when the total size of the branch of the pull request is above
    that of the target branch, and "removed" otherwise: the compressed
    totals have no part in the choice of the word. *)
Theorem summary_sentence_direction (prettyBytes : Z → bool → string)
    (targetStats prStats : BranchStats) (fileDetailsOpen : bool) :
  (∀ n, JS.startsWith (prettyBytes n true) "+" = true ↔ 0 < n) →
  ∃ rest,
    getStatComment prettyBytes targetStats prStats fileDetailsOpen
    = commentHash +:+ JS.LF
      +:+ "<sub>**[[filediff]](https://github.com/shopify/filediff)** The total bytes "
      +:+ (if decide (totalSize targetStats < totalSize prStats)
           then "added" else "removed")
      +:+ " are:</sub>" +:+ rest.
Proof.
  intros Hsign.
  assert (Hword :
    JS.startsWith (prettyBytes (totalSize prStats - totalSize targetStats) true)
      "+"
    = bool_decide (totalSize targetStats < totalSize prStats)).
  { specialize (Hsign (totalSize prStats - totalSize targetStats)).
    destruct (JS.startsWith _ "+"); case_bool_decide; try done.
    - assert (0 < totalSize prStats - totalSize targetStats) by by apply Hsign.
      lia.
    - assert (false = true) by (apply Hsign; lia). done. }
  unfold getStatComment, getDiff.
  destruct (fileColumnsOf prettyBytes targetStats prStats) as [ft fc].
  rewrite Hword. eexists.
  destruct (decide (totalSize targetStats < totalSize prStats)).
  - rewrite bool_decide_eq_true_2 by done. reflexivity.
  - rewrite bool_decide_eq_false_2 by done. reflexivity.
Qed.

Lemma sampleBytes_sign n : JS.startsWith (sampleBytes n true) "+" = true ↔ 0 < n.
Proof.
  unfold sampleBytes, JS.startsWith.
  destruct (decide (n = 0)) as [->|Hn].
  { split; [intros H; by vm_compute in H|lia]. }
  destruct (n <? 0) eqn:Hneg.
  - apply Z.ltb_lt in Hneg. split; [|lia].
    intros [t Ht]%prefix_prefixOf. rewrite !string_app_cons in Ht.
    by injection Ht.
  - apply Z.ltb_ge in Hneg. split; [lia|]. intros _.
    apply prefix_prefixOf. by eexists.
Qed.

Lemma summary_sentence_direction_witness :
  let metric := λ n, {| size := n; gzip := n; brotli := n |} in
  let targetStats :=
    {| totalSize := 100; totalGzip := 10; totalBrotli := 10;
       files := {[ "x.js" := metric 100 ]} |} in
  let prStats :=
    {| totalSize := 90; totalGzip := 20; totalBrotli := 20;
       files := {[ "x.js" := metric 90 ]} |} in
  JS.startsWith (getStatComment sampleBytes targetStats prStats false)
    (commentHash +:+ JS.LF
     +:+ "<sub>**[[filediff]](https://github.com/shopify/filediff)** The total bytes removed are:</sub>")
  = true.
Proof.
  intros metric targetStats prStats.
  destruct (summary_sentence_direction sampleBytes targetStats prStats false
              sampleBytes_sign) as [rest Hrest].
  reflexivity.
Defined.

(** * The earlier version against the later one *)

Lemma prefix_char c x s :
  String.prefix (String c "") (String x s) = bool_decide (c = x).
Proof.
  cbn [String.prefix]. destruct (ascii_dec c x) as [->|Hne].
  - rewrite bool_decide_eq_true_2 by done. by destruct s.
  - by rewrite bool_decide_eq_false_2.
Qed.

(** Splitting at a separator of one code unit distributes over the
    pieces. *)
Lemma split_char_app c a b acc :
  JS.split_go (String c "") 0 acc (a +:+ String c "" +:+ b)
  = JS.split_go (String c "") 0 acc a ++ JS.split_go (String c "") 0 "" b.
Proof.
  revert acc. induction a as [|x a IH]; intros acc.
  - rewrite string_app_nil_l, string_app_cons, string_app_nil_l.
    cbn [JS.split_go String.length Nat.sub app].
    by rewrite prefix_char, bool_decide_eq_true_2.
  - rewrite string_app_cons. cbn [JS.split_go String.length Nat.sub].
    rewrite !prefix_char. case_bool_decide; by rewrite IH.
Qed.

(** X17.  The earlier version names a file by what follows the first seven
    pieces of its absolute path between slashes, whatever the branch is; a
    path of seven pieces gets the empty name.  Below a workspace of seven
    pieces that ends with the name of the branch, this name followed by a
    slash occurring nowhere else in the path, the two versions give a file
    the same name. *)
Theorem previous_key_seven_pieces (root rel : string) :
  length (JS.split "/" root) = 7%nat →
  Previous.filePathOf (root +:+ "/" +:+ rel) = rel ∧
  Previous.filePathOf root = "" ∧
  (∀ base branch,
     root = base +:+ "/" +:+ branch →
     (∀ a' b', (base +:+ "/") +:+ (branch +:+ "/")
               = a' +:+ (branch +:+ "/") +:+ b' → b' = "") →
     includes rel (branch +:+ "/") = false →
     filePathOf (root +:+ "/" +:+ rel) branch
     = Some (Previous.filePathOf (root +:+ "/" +:+ rel))).
Proof.
  intros Hlen.
  assert (Hkey : Previous.filePathOf (root +:+ "/" +:+ rel) = rel).
  { unfold Previous.filePathOf, JS.split. rewrite split_char_app.
    fold (JS.split "/" root). fold (JS.split "/" rel).
    rewrite drop_app_length' by done. by apply join_split. }
  split; [done|]. split.
  - unfold Previous.filePathOf. by rewrite drop_ge by lia.
  - intros base branch -> Hfirst Hrel. rewrite Hkey.
    rewrite <- (filePathOf_relative (base +:+ "/") branch rel Hfirst);
      [|by apply includes_false].
    f_equal. by rewrite !string_app_assoc.
Qed.

Lemma previous_key_seven_pieces_witness :
  Previous.filePathOf "/home/runner/work/repo/.filediff/main/dist/a.js"
  = "dist/a.js" ∧
  filePathOf "/home/runner/work/repo/.filediff/main/dist/a.js" "main"
  = Some "dist/a.js" ∧
  Previous.filePathOf "/home/runner/work/repo/.filediff/feature/x/dist/a.js"
  = "x/dist/a.js".
Proof.
  destruct (previous_key_seven_pieces "/home/runner/work/repo/.filediff/main"
              "dist/a.js" eq_refl) as (Hkey & _ & Hsame).
  destruct (previous_key_seven_pieces
              "/home/runner/work/repo/.filediff/feature" "x/dist/a.js" eq_refl)
    as (Hslash & _).
  split; [exact Hkey|]. split; [reflexivity|exact Hslash].
Defined.

Lemma join_two sep a b : JS.join sep [a; b] = a +:+ sep +:+ b.
Proof. reflexivity. Qed.

Lemma join_three sep a b c :
  JS.join sep [a; b; c] = a +:+ sep +:+ b +:+ sep +:+ c.
Proof. reflexivity. Qed.

(** X18.  The label of the earlier version is that of the later one, with a
    comma and a space in front when no file is changed and some file is
    added or removed: the two versions word the label alike exactly when a
    file is changed or none is added or removed. *)
Theorem previous_label_leading_comma (fileTotals : FileTotals) :
  Previous.summaryText fileTotals
  = (if decide (changed fileTotals = 0 ∧
                (added fileTotals ≠ 0 ∨ removed fileTotals ≠ 0))
     then ", " else "")
    +:+ JS.join ", " (detailsSummaryText fileTotals).
Proof.
  unfold Previous.summaryText, detailsSummaryText. cbv zeta.
  destruct (decide (changed fileTotals ≠ 0)) as [Hc|Hc],
    (decide (added fileTotals ≠ 0)) as [Ha|Ha],
    (decide (removed fileTotals ≠ 0)) as [Hr|Hr];
    cbn [app];
    [rewrite decide_False by lia|rewrite decide_False by lia
    |rewrite decide_False by lia|rewrite decide_False by lia
    |rewrite decide_True by lia|rewrite decide_True by lia
    |rewrite decide_True by lia|rewrite decide_False by lia];
    rewrite ?join_two, ?join_three, ?string_app_nil_l, ?string_app_nil_r,
      ?string_app_assoc;
    reflexivity.
Qed.

(** X19.  The earlier version cuts a command at every single space, the
    later one at every run of white space.  On a command whose only white
    space is single spaces the two give the same name and the same
    arguments. *)
Theorem previous_words_single_spaces (cmd : string) :
  (∀ c, occurs c cmd → JS.is_space c = true → c = " "%char) →
  includes cmd "  " = false →
  Previous.commandOf cmd = commandOf cmd.
Proof.
  intros Honly Hdouble. apply includes_false in Hdouble.
  unfold Previous.commandOf, commandOf. cbv zeta.
  enough (JS.split " " cmd = JS.splitSpaces cmd) as -> by done.
  unfold JS.split, JS.splitSpaces.
  enough (H : (∀ acc, JS.split_go " " 0 acc cmd = JS.splitSpaces_go false acc cmd)
              ∧ ((∀ t, cmd ≠ String " " t) →
                 JS.split_go " " 0 "" cmd = JS.splitSpaces_go true "" cmd))
    by apply H.
  induction cmd as [|c s IH]; [done|].
  destruct IH as [IH1 IH2].
  { intros x Hx. apply Honly. by right. }
  { intros (a & b & Hab). apply Hdouble. exists (String c a), b.
    by rewrite Hab, !string_app_cons. }
  cbn [JS.split_go JS.splitSpaces_go String.length Nat.sub].
  rewrite prefix_char.
  destruct (JS.is_space c) eqn:Hc.
  - assert (c = " "%char) as -> by (apply Honly; [by left|done]).
    rewrite bool_decide_eq_true_2 by done. split.
    + intros acc. f_equal. apply IH2. intros t ->. apply Hdouble.
      by exists "", t.
    + intros Hstart. by destruct (Hstart s).
  - rewrite bool_decide_eq_false_2 by (intros <-; done). split.
    + intros acc. apply IH1.
    + intros _. apply IH1.
Qed.

Lemma previous_words_single_spaces_witness :
  Previous.commandOf "npm run build" = ("npm", ["run"; "build"]) ∧
  Previous.commandOf "npm  ci" = ("npm", [""; "ci"]) ∧
  commandOf "npm  ci" = ("npm", ["ci"]).
Proof.
  split; [|split; reflexivity].
  rewrite (previous_words_single_spaces "npm run build"); [reflexivity| |reflexivity].
  intros c Hc Hspace. cbn in Hc.
  repeat (destruct Hc as [<-|Hc]; [done|]). done.
Defined.

Section PreviousComments.

Context {FS : Type} (host : Host FS) (typeError : string).

Lemma previous_deleteExisting_bodies owner repo data n w :
  Forall (λ c, is_Some (Comment.body c)) data →
  Previous.deleteExisting host typeError owner repo data w
  = (deleteExisting host owner repo data n ;; ret tt) w.
Proof.
  revert n w. induction data as [|comment rest IH]; intros n w Hall; [done|].
  apply Forall_cons in Hall as [[body Hbody] Hall].
  cbn [Previous.deleteExisting deleteExisting]. rewrite Hbody.
  fold commentHash. destruct (JS.startsWith body commentHash); [|by apply IH].
  unfold bind.
  destruct (deleteComment host owner repo (Comment.id comment) w)
    as [[[]|msg] w1]; [|done].
  specialize (IH (n + 1) w1 Hall). unfold bind in IH. exact IH.
Qed.

Lemma previous_deleteExisting_stops owner repo before c after w :
  Forall (λ c, is_Some (Comment.body c)) before →
  Comment.body c = None →
  (∀ cs call, h_apiError host cs call = None) →
  let ids := Comment.id <$> filter (λ c, marked c = true) before in
  ∃ w',
    Previous.deleteExisting host typeError owner repo (before ++ c :: after) w
    = (Throw typeError, w') ∧
    fs w' = fs w ∧
    comments w' = filter (λ c, Comment.id c ∉ ids) (comments w) ∧
    calls w' = calls w ++ (DeleteComment owner repo <$> ids).
Proof.
  intros Hall Hc Hapi. revert w.
  induction before as [|comment rest IH]; intros w; cbn zeta.
  - cbn [app Previous.deleteExisting]. rewrite Hc. eexists. split; [done|].
    rewrite filter_nil, fmap_nil, app_nil_r. split; [done|]. split; [|done].
    by rewrite filter_none.
  - apply Forall_cons in Hall as [[body Hbody] Hall].
    assert (Hm : JS.startsWith body commentHash = marked comment)
      by (unfold marked; by rewrite Hbody).
    cbn [app Previous.deleteExisting]. rewrite Hbody. fold commentHash.
    rewrite Hm, filter_cons.
    destruct (decide (marked comment = true)) as [Hmarked|Hmarked].
    + rewrite Hmarked. unfold bind, deleteComment, api.
      rewrite Hapi.
      destruct (IH Hall
                  (setComments
                     (filter (λ c0, Comment.id c0 ≠ Comment.id comment)
                        (comments (logCall (DeleteComment owner repo
                                              (Comment.id comment)) w)))
                     (logCall (DeleteComment owner repo (Comment.id comment)) w)))
        as (w' & Hrun & Hfs & Hcomments & Hcalls).
      exists w'. split; [done|]. split; [done|].
      cbn in Hcomments, Hcalls. rewrite fmap_cons. split.
      * rewrite Hcomments, list_filter_filter. apply list_filter_iff.
        intros c0. rewrite not_elem_of_cons. tauto.
      * rewrite Hcalls. cbn. by rewrite <- app_assoc.
    + apply not_true_is_false in Hmarked. rewrite Hmarked. apply IH, Hall.
Qed.

End PreviousComments.

(** X20.  In the earlier version a comment without a body stops the
    replacement: the hosting API rejecting nothing, the run deletes the
    marked comments listed before that comment, then fails with the type
    error and creates no report.  The later version, asked to replace, goes
    on and publishes its report on the same pull request. *)
Theorem previous_bodyless_comment_blocks_report {FS : Type} (host : Host FS)
    (typeError : string) (repo0 : Repository) (pr0 : PullRequest)
    (commentBody fileDetailsOpen : string) (targetStats prStats : BranchStats)
    (w : World FS) (before after : list Comment.t) (c : Comment.t) :
  comments w = before ++ c :: after →
  Forall (λ c, is_Some (Comment.body c)) before →
  Comment.body c = None →
  (∀ cs call, h_apiError host cs call = None) →
  let owner := owner_login repo0 in
  let repo := name repo0 in
  let issue := number pr0 in
  let ids := Comment.id <$> filter (λ c, marked c = true) before in
  (∃ w',
     Previous.publish host typeError owner repo issue commentBody w
     = (Throw typeError, w') ∧
     comments w' = filter (λ c, Comment.id c ∉ ids) (comments w) ∧
     calls w'
     = calls w ++ ListComments owner repo issue
         :: (DeleteComment owner repo <$> ids)) ∧
  (∃ w',
     publish host repo0 pr0 fileDetailsOpen "true" targetStats prStats w
     = (Ok tt, w') ∧
     ∃ report, last (comments w') = Some report ∧ marked report = true).
Proof.
  intros Hcomments Hall Hc Hapi owner repo issue ids. split.
  - assert (Hlist : listComments host owner repo issue w
                    = (Ok (before ++ c :: after),
                       logCall (ListComments owner repo issue) w)).
    { unfold listComments, api. rewrite Hapi. cbn [comments logCall].
      by rewrite Hcomments. }
    destruct (previous_deleteExisting_stops host typeError owner repo
                before c after (logCall (ListComments owner repo issue) w)
                Hall Hc Hapi) as (w' & Hrun & _ & Hcs & Hcalls).
    exists w'. unfold Previous.publish.
    rewrite (bind_Ok _ _ _ _ _ Hlist), (bind_Throw _ _ _ _ _ Hrun).
    split; [done|]. split; [done|]. rewrite Hcalls. cbn.
    by rewrite <- app_assoc.
  - destruct (publish host repo0 pr0 fileDetailsOpen "true" targetStats
                prStats w) as [[[]|msg] w'] eqn:Hpub.
    + exists w'. split; [done|]. apply publish_Ok in Hpub as [-> _].
      eexists. rewrite last_snoc. split; [done|]. apply getStatComment_marked.
    + exfalso. revert Hpub. unfold publish. rewrite decide_True by done.
      intros [(? & w1 & Hreplace & Hcreate)|(msg' & Hreplace & _)]%bind_inv.
      * unfold createComment, api in Hcreate. by rewrite Hapi in Hcreate.
      * apply bind_inv in Hreplace
          as [(data & w2 & Hlist & Hreplace)|(msg'' & Hlist & _)].
        -- apply bind_inv in Hreplace
             as [(n & w3 & Hdel & Hret)|(msg'' & Hdel & _)]; [done|].
           clear Hlist. revert Hdel. generalize 0. revert w2.
           induction data as [|comment rest IH]; intros w2 n; [done|].
           cbn [deleteExisting].
           destruct (Comment.body comment) as [body|]; [|apply IH].
           destruct (JS.startsWith body commentHash); [|apply IH].
           intros [(? & w4 & Hdel & Hrest)|(m & Hdel & _)]%bind_inv.
           ++ by apply IH in Hrest.
           ++ unfold deleteComment, api in Hdel. by rewrite Hapi in Hdel.
        -- unfold listComments, api in Hlist. by rewrite Hapi in Hlist.
Qed.

Lemma previous_bodyless_comment_blocks_report_witness :
  let w := sampleWorld [] sampleComments in
  let stats := λ n,
    {| totalSize := n; totalGzip := n; totalBrotli := n; files := ∅ |} in
  Comment.id <$> comments
    (Previous.publish (sampleHost []) "TypeError" "shopify" "repo" 7 "report"
       w).2 = [1; 3; 4] ∧
  length (comments
            (publish (sampleHost []) {| owner_login := "shopify"; name := "repo" |}
               {| head_ref := "feature"; number := 7 |} "false" "true"
               (stats 1) (stats 2) w).2) = 3%nat.
Proof.
  intros w stats.
  destruct (previous_bodyless_comment_blocks_report (sampleHost []) "TypeError"
              {| owner_login := "shopify"; name := "repo" |}
              {| head_ref := "feature"; number := 7 |} "report" "false"
              (stats 1) (stats 2) w
              [{| Comment.id := 1; Comment.body := Some "hello" |};
               {| Comment.id := 2;
                  Comment.body :=
                    Some "<!-- @alex-page was here -->an older report" |}]
              [{| Comment.id := 4;
                  Comment.body :=
                    Some "<!-- @alex-page was here -->an old report" |}]
              {| Comment.id := 3; Comment.body := None |}
              eq_refl) as [(w1 & Hold & Hc & _) (w2 & Hnew & _)].
  { repeat constructor; by eexists. }
  { reflexivity. }
  { done. }
  cbn [owner_login name number] in Hold. rewrite Hold, Hnew. cbn [snd].
  split; [by rewrite Hc|].
  apply publish_Ok in Hnew as [-> _]. reflexivity.
Defined.

(** X21.  On a pull request all of whose comments have a body, the end of
    the earlier version, from the listing of the comments on, is the end of
    the later version with [replace_comment] set to "true": the same calls,
    the same comments left, the same outcome, also where the hosting API
    rejects a call. *)
Theorem previous_publish_is_replace {FS : Type} (host : Host FS)
    (typeError : string) (repo0 : Repository) (pr0 : PullRequest)
    (fileDetailsOpen : string) (targetStats prStats : BranchStats)
    (w : World FS) :
  Forall (λ c, is_Some (Comment.body c)) (comments w) →
  Previous.publish host typeError (owner_login repo0) (name repo0) (number pr0)
    (getStatComment (h_prettyBytes host) targetStats prStats
       (bool_decide (fileDetailsOpen = "true"))) w
  = publish host repo0 pr0 fileDetailsOpen "true" targetStats prStats w.
Proof.
  intros Hall. unfold Previous.publish, publish. rewrite decide_True by done.
  unfold bind, ret.
  destruct (listComments host (owner_login repo0) (name repo0) (number pr0) w)
    as [[data|msg] w1] eqn:Hlist; [|done].
  apply api_Ok in Hlist as [_ [= <- <-]].
  pose proof (previous_deleteExisting_bodies host typeError (owner_login repo0)
                (name repo0) (comments w) 0
                (logCall (ListComments (owner_login repo0) (name repo0)
                            (number pr0)) w) Hall) as Hdel.
  unfold bind, ret in Hdel. cbn [comments logCall]. rewrite Hdel.
  by destruct (deleteExisting host (owner_login repo0) (name repo0) (comments w)
                 0 _) as [[n|msg] w1].
Qed.

Lemma previous_publish_is_replace_witness :
  let w :=
    sampleWorld [] [{| Comment.id := 1; Comment.body := Some "hello" |};
                    {| Comment.id := 5;
                       Comment.body :=
                         Some "<!-- @alex-page was here -->an older report" |}] in
  let stats := λ n,
    {| totalSize := n; totalGzip := n; totalBrotli := n; files := ∅ |} in
  Comment.id <$> comments
    (Previous.publish (sampleHost []) "TypeError" "shopify" "repo" 7
       (getStatComment sampleBytes (stats 1) (stats 2) false) w).2
  = [1; 2].
Proof.
  intros w stats.
  refine (eq_trans
            (f_equal (λ out, Comment.id <$> comments out.2)
               (previous_publish_is_replace (sampleHost []) "TypeError"
                  {| owner_login := "shopify"; name := "repo" |}
                  {| head_ref := "feature"; number := 7 |} "false"
                  (stats 1) (stats 2) w _)) _).
  - repeat constructor; by eexists.
  - reflexivity.
Defined.

